(** * The boardgame-app client ([App.tsx]): authentication flow

    A shallow embedding of the React component [App] of the front end, in
    its revision with Google sign-in: its six [useState] cells, the browser
    objects it touches ([localStorage], [window.location],
    [window.history], [console]), the HTTP calls made through axios, the
    five asynchronous handlers, [checkAuthStatus] and the mount effect.

    JavaScript's run-to-completion execution is modelled by a small
    command language [Async]: a handler runs synchronously up to its
    [await]; the rest of the function is queued as a continuation and runs
    when the event loop settles the request.  A handler reads the state
    through the closure of the render it was created in, and writes it
    through the setters.

    Outside the model: the parsing of the query string (the model starts
    from the list of parameters [URLSearchParams] exposes), the JSX other
    than the buttons, and the backend, any answer of which is considered. *)

From stdpp Require Import gmap strings list.
From Stdlib Require Import ZArith.


(** ** Payloads of the backend (the TypeScript interfaces) *)

Module ApiInfo.
Record t : Type := mk
  { app_name : string;
    description : string;
    authentication : string;
    allowed_emails : Z }.
End ApiInfo.

Module ProtectedData.
Record t : Type := mk
  { message : string;
    data : string;
    user_email : string;
    game_access : bool;
    auth_method : string }.
End ProtectedData.

Module UserInfo.
Record t : Type := mk
  { email : string;
    name : string;
    picture : option string;
    authenticated : bool;
    token_issuer : option string }.
End UserInfo.

Module AuthResponse.
Record t : Type := mk
  { authorization_url : string;
    state : string }.
End AuthResponse.

Definition API_BASE_URL : string := "http://localhost:8000".

(** ** HTTP through axios *)

Inductive Method : Type := GET | POST.

(** A request as the client issues it.  The body of the only POST is the
    empty object and is left out. *)
Record Request : Type := mkRequest
  { method : Method;
    url : string;
    headers : list (string * string) }.

(** What a [catch] clause can receive: an [AxiosError] with its [message]
    and, when the server answered, [response.status]; or any other thrown
    value. *)
Inductive Thrown : Type :=
| AxiosError (message : string) (response_status : option Z)
| OtherError.

Record Response (T : Type) : Type := mkResponse { data : T }.
Arguments mkResponse {T} _.
Arguments data {T} _.

(** How an awaited axios promise settles.  [T] is the type argument of
    [axios.get<T>]. *)
Inductive Outcome (T : Type) : Type :=
| Resolved (response : Response T)
| Rejected (err : Thrown).
Arguments Resolved {T} _.
Arguments Rejected {T} _.

(** ** State *)

(** The [useState] cells of [App].  A value of this type is also what the
    closures of one render see. *)
Record Component : Type := mkComponent
  { apiInfo : option ApiInfo.t;
    protectedData : option ProtectedData.t;
    userInfo : option UserInfo.t;
    loading : bool;
    error : option string;
    authToken : option string }.

(** [window.location]: the path and the query parameters as
    [URLSearchParams] lists them (decoded, in order of appearance). *)
Record Location : Type := mkLocation
  { pathname : string;
    search : list (string * string) }.

(** Commands without a result. *)
Inductive Cmd : Type :=
| setApiInfo (v : option ApiInfo.t)
| setProtectedData (v : option ProtectedData.t)
| setUserInfo (v : option UserInfo.t)
| setLoading (v : bool)
| setError (v : option string)
| setAuthToken (v : option string)
| localStorage_setItem (key value : string)
| localStorage_removeItem (key : string)
| history_replaceState (path : string)
| location_set_href (target : string)
| console_error (label : string).

(** The body of an asynchronous function, in continuation-passing style.
    [Call callee k] is a call of an async function whose promise is not
    awaited: the callee runs up to its first [await], then [k] goes on. *)
Inductive Async : Type :=
| Done
| Do (c : Cmd) (k : Async)
| localStorage_getItem (key : string) (k : option string -> Async)
| new_URLSearchParams (k : list (string * string) -> Async)
| location_pathname (k : string -> Async)
| Await (T : Type) (r : Request) (k : Outcome T -> Async)
| Call (callee : Async) (k : Async).

(** A request in flight and the rest of the function that awaits it. *)
Inductive Pending : Type :=
| Pend (T : Type) (r : Request) (k : Outcome T -> Async).

Record World : Type := mkWorld
  { component : Component;
    localStorage : gmap string string;
    location : Location;
    navigation : option string;      (* last value assigned to location.href *)
    console : list string;           (* labels passed to console.error *)
    requests : list Request;         (* every request issued, oldest first *)
    pending : list Pending }.

Definition with_component (f : Component -> Component) (w : World) : World :=
  {| component := f (component w); localStorage := localStorage w;
     location := location w; navigation := navigation w;
     console := console w; requests := requests w; pending := pending w |}.

Definition with_localStorage
    (f : gmap string string -> gmap string string) (w : World) : World :=
  {| component := component w; localStorage := f (localStorage w);
     location := location w; navigation := navigation w;
     console := console w; requests := requests w; pending := pending w |}.

Definition with_location (l : Location) (w : World) : World :=
  {| component := component w; localStorage := localStorage w;
     location := l; navigation := navigation w;
     console := console w; requests := requests w; pending := pending w |}.

Definition with_navigation (target : string) (w : World) : World :=
  {| component := component w; localStorage := localStorage w;
     location := location w; navigation := Some target;
     console := console w; requests := requests w; pending := pending w |}.

Definition with_console (label : string) (w : World) : World :=
  {| component := component w; localStorage := localStorage w;
     location := location w; navigation := navigation w;
     console := console w ++ [label]; requests := requests w;
     pending := pending w |}.

Definition with_pending (q : list Pending) (w : World) : World :=
  {| component := component w; localStorage := localStorage w;
     location := location w; navigation := navigation w;
     console := console w; requests := requests w; pending := q |}.

(** Issue [r] and park the continuation. *)
Definition issue (p : Pending) (w : World) : World :=
  {| component := component w; localStorage := localStorage w;
     location := location w; navigation := navigation w;
     console := console w;
     requests := requests w ++ [let '(Pend _ r _) := p in r];
     pending := pending w ++ [p] |}.

Definition put_apiInfo v (c : Component) : Component :=
  {| apiInfo := v; protectedData := protectedData c; userInfo := userInfo c;
     loading := loading c; error := error c; authToken := authToken c |}.
Definition put_protectedData v (c : Component) : Component :=
  {| apiInfo := apiInfo c; protectedData := v; userInfo := userInfo c;
     loading := loading c; error := error c; authToken := authToken c |}.
Definition put_userInfo v (c : Component) : Component :=
  {| apiInfo := apiInfo c; protectedData := protectedData c; userInfo := v;
     loading := loading c; error := error c; authToken := authToken c |}.
Definition put_loading v (c : Component) : Component :=
  {| apiInfo := apiInfo c; protectedData := protectedData c;
     userInfo := userInfo c;
     loading := v; error := error c; authToken := authToken c |}.
Definition put_error v (c : Component) : Component :=
  {| apiInfo := apiInfo c; protectedData := protectedData c;
     userInfo := userInfo c;
     loading := loading c; error := v; authToken := authToken c |}.
Definition put_authToken v (c : Component) : Component :=
  {| apiInfo := apiInfo c; protectedData := protectedData c;
     userInfo := userInfo c;
     loading := loading c; error := error c; authToken := v |}.

Definition exec (c : Cmd) : World -> World :=
  match c with
  | setApiInfo v => with_component (put_apiInfo v)
  | setProtectedData v => with_component (put_protectedData v)
  | setUserInfo v => with_component (put_userInfo v)
  | setLoading v => with_component (put_loading v)
  | setError v => with_component (put_error v)
  | setAuthToken v => with_component (put_authToken v)
  | localStorage_setItem key value => with_localStorage (insert key value)
  | localStorage_removeItem key => with_localStorage (delete key)
  | history_replaceState path =>
      with_location {| pathname := path; search := [] |}
  | location_set_href target => with_navigation target
  | console_error label => with_console label
  end.

(** One synchronous run: up to the end of the function or its [await]. *)
Fixpoint run (t : Async) (w : World) : World :=
  match t with
  | Done => w
  | Do c k => run k (exec c w)
  | localStorage_getItem key k => run (k (localStorage w !! key)) w
  | new_URLSearchParams k => run (k (search (location w))) w
  | location_pathname k => run (k (pathname (location w))) w
  | Await T r k => issue (Pend T r k) w
  | Call callee k => run k (run callee w)
  end.

(** [t1] followed by [t2] in the same function: [t2] is behind whatever
    [t1] awaits.  Used for [finally] blocks. *)
Fixpoint seq (t1 t2 : Async) : Async :=
  match t1 with
  | Done => t2
  | Do c k => Do c (seq k t2)
  | localStorage_getItem key k => localStorage_getItem key (fun v => seq (k v) t2)
  | new_URLSearchParams k => new_URLSearchParams (fun v => seq (k v) t2)
  | location_pathname k => location_pathname (fun v => seq (k v) t2)
  | Await T r k => Await T r (fun o => seq (k o) t2)
  | Call callee k => Call callee (seq k t2)
  end.

Declare Scope async_scope.
Delimit Scope async_scope with async.
Bind Scope async_scope with Async.
Notation "c ;; k" := (Do c k%async)
  (at level 100, k at level 200, right associativity) : async_scope.
Notation "'let*' x ':=' e 'in' k" := (e (fun x => k%async))
  (at level 10, x name, e at level 100, k at level 200) : async_scope.

(** ** JavaScript helpers *)

(** Truthiness of a [string | null] value: [null] and the empty string are
    falsy. *)
Definition truthy (v : option string) : bool :=
  match v with
  | Some s => negb (String.eqb s "")
  | None => false
  end.

(** [if (v) { then_ v } else { else_ }], with [v] narrowed to a string in
    the first branch. *)
Definition when_truthy {A : Type} (v : option string)
    (then_ : string -> A) (else_ : A) : A :=
  match v with
  | Some s => if truthy (Some s) then then_ s else else_
  | None => else_
  end.

(** [a || b] on such values. *)
Definition or_else (a b : option string) : option string :=
  if truthy a then a else b.

(** [URLSearchParams.get]: the first value listed under [name], or
    [null]. *)
Fixpoint get (name : string) (params : list (string * string)) : option string :=
  match params with
  | [] => None
  | (n, v) :: rest => if String.eqb n name then Some v else get name rest
  end.

Definition bearer (token : string) : list (string * string) :=
  [("Authorization", "Bearer " +:+ token)].

Definition axios_get (T : Type) (path : string) (hs : list (string * string))
    (k : Outcome T -> Async) : Async :=
  Await T {| method := GET; url := API_BASE_URL +:+ path; headers := hs |} k.

Definition axios_post (T : Type) (path : string) (hs : list (string * string))
    (k : Outcome T -> Async) : Async :=
  Await T {| method := POST; url := API_BASE_URL +:+ path; headers := hs |} k.

(** The message built in the [catch] clauses:
    [err instanceof AxiosError ? `${prefix}${err.message}` : '...']. *)
Definition errorMessage (prefix : string) (err : Thrown) : string :=
  match err with
  | AxiosError message _ => prefix +:+ message
  | OtherError => "An unexpected error occurred"
  end.

(** [err instanceof AxiosError && err.response?.status === 401] *)
Definition is_401 (err : Thrown) : bool :=
  match err with
  | AxiosError _ (Some status) => Z.eqb status 401
  | _ => false
  end.

(** ** The handlers of [App] *)

Section Render.
(** The state the closures of this render have captured. *)
Variable render : Component.

Local Open Scope async_scope.

Definition fetchApiInfo : Async :=
  setLoading true ;;
  setError None ;;
  let* settled := axios_get ApiInfo.t "/api/info" [] in
  seq
    match settled with
    | Resolved response => setApiInfo (Some (data response)) ;; Done
    | Rejected err =>
        setError (Some (errorMessage "Failed to fetch API info: " err)) ;;
        console_error "API Error:" ;;
        Done
    end
    (* finally *)
    (setLoading false ;; Done).

Definition handleLogout : Async :=
  setLoading true ;;
  setError None ;;
  let* settled :=
    axios_post unit "/auth/logout"
      (when_truthy (authToken render) bearer []) in
  seq
    match settled with
    | Resolved _ => Done
    | Rejected err => console_error "Logout Error:" ;; Done
    end
    (* finally *)
    (setAuthToken None ;;
     setUserInfo None ;;
     setProtectedData None ;;
     localStorage_removeItem "auth_token" ;;
     localStorage_removeItem "session_id" ;;
     setLoading false ;;
     Done).

Definition fetchUserInfo (token : option string) : Async :=
  when_truthy (or_else token (authToken render))
    (fun tokenToUse =>
       setLoading true ;;
       setError None ;;
       let* settled :=
         axios_get UserInfo.t "/auth/user" (bearer tokenToUse) in
       seq
         match settled with
         | Resolved response => setUserInfo (Some (data response)) ;; Done
         | Rejected err =>
             setError
               (Some (errorMessage "Failed to fetch user info: " err)) ;;
             console_error "User Info Error:" ;;
             if is_401 err then Call handleLogout Done else Done
         end
         (* finally *)
         (setLoading false ;; Done))
    (* if (!tokenToUse) return *)
    Done.

Definition handleLogin : Async :=
  setLoading true ;;
  setError None ;;
  let* settled := axios_get AuthResponse.t "/auth/login" [] in
  seq
    match settled with
    | Resolved response =>
        location_set_href (AuthResponse.authorization_url (data response)) ;;
        Done
    | Rejected err =>
        setError (Some (errorMessage "Failed to initiate login: " err)) ;;
        console_error "Login Error:" ;;
        Done
    end
    (* finally *)
    (setLoading false ;; Done).

Definition fetchProtectedData : Async :=
  when_truthy (authToken render)
    (fun token =>
       setLoading true ;;
       setError None ;;
       let* settled :=
         axios_get ProtectedData.t "/api/protected" (bearer token) in
       seq
         match settled with
         | Resolved response =>
             setProtectedData (Some (data response)) ;; Done
         | Rejected err =>
             setError
               (Some (errorMessage "Failed to fetch protected data: " err)) ;;
             console_error "Protected API Error:" ;;
             Done
         end
         (* finally *)
         (setLoading false ;; Done))
    (* if (!authToken) *)
    (setError (Some "Please log in first") ;; Done).

Definition checkAuthStatus : Async :=
  let* urlParams := new_URLSearchParams in
  let tokenFromUrl := get "token" urlParams in
  let sessionFromUrl := get "session" urlParams in
  when_truthy tokenFromUrl
    (fun tokenFromUrl =>
       setAuthToken (Some tokenFromUrl) ;;
       localStorage_setItem "auth_token" tokenFromUrl ;;
       seq
         (when_truthy sessionFromUrl
            (fun sessionFromUrl =>
               localStorage_setItem "session_id" sessionFromUrl ;; Done)
            Done)
         (let* path := location_pathname in
          history_replaceState path ;;
          Call (fetchUserInfo (Some tokenFromUrl))
          (* return *)
          Done))
    (let* storedToken := localStorage_getItem "auth_token" in
     when_truthy storedToken
       (fun storedToken =>
          setAuthToken (Some storedToken) ;;
          Call (fetchUserInfo (Some storedToken)) Done)
       Done).

(** The effect run once after the first render:
    [checkAuthStatus(); fetchApiInfo();]. *)
Definition useEffect_mount : Async :=
  Call checkAuthStatus (Call fetchApiInfo Done).

End Render.

(** ** The view: which buttons the JSX offers *)

Inductive Button : Type :=
| TestApiConnection
| SignOut
| SignIn
| AccessGameData
| TryAccessGameData.

(** [userInfo ? ... : ...] chooses the branch a button is rendered in. *)
Definition shown (b : Button) (c : Component) : bool :=
  match b with
  | TestApiConnection => true
  | SignOut | AccessGameData => bool_decide (is_Some (userInfo c))
  | SignIn | TryAccessGameData => negb (bool_decide (is_Some (userInfo c)))
  end.

(** The [disabled] attribute. *)
Definition disabled (b : Button) (c : Component) : bool :=
  match b with
  | TryAccessGameData => negb (truthy (authToken c)) || loading c
  | _ => loading c
  end.

Definition onClick (b : Button) (render : Component) : Async :=
  match b with
  | TestApiConnection => fetchApiInfo
  | SignOut => handleLogout render
  | SignIn => handleLogin
  | AccessGameData | TryAccessGameData => fetchProtectedData render
  end.

(** ** The event loop *)

(** One macrotask: a click on an enabled button, whose handler sees the
    state of the current render, or the settlement of a request in flight,
    whose continuation then runs. *)
Inductive step : World -> World -> Prop :=
| step_click (b : Button) (w : World) :
    shown b (component w) = true ->
    disabled b (component w) = false ->
    step w (run (onClick b (component w)) w)
| step_settle (T : Type) (r : Request) (k : Outcome T -> Async)
    (o : Outcome T) (pre post : list Pending) (w : World) :
    pending w = pre ++ Pend T r k :: post ->
    step w (run (k o) (with_pending (pre ++ post) w)).

(** [t], started in [w], runs up to an [await] of request [r]; [k] is the
    rest of the function. *)
Definition suspends (t : Async) (w : World) {T : Type}
    (r : Request) (k : Outcome T -> Async) : Prop :=
  requests (run t w) = requests w ++ [r] /\
  pending (run t w) = pending w ++ [Pend T r k].

(** [t], started in [w], returns without issuing a request. *)
Definition returns (t : Async) (w : World) : Prop :=
  requests (run t w) = requests w /\ pending (run t w) = pending w.

(** ** Page load *)

Definition initial_component : Component :=
  {| apiInfo := None; protectedData := None; userInfo := None;
     loading := false; error := None; authToken := None |}.

Definition initial (storage : gmap string string) (loc : Location) : World :=
  {| component := initial_component; localStorage := storage;
     location := loc; navigation := None; console := [];
     requests := []; pending := [] |}.

(** The first render and its mount effect, up to the point where the
    browser is idle again. *)
Definition page_load (storage : gmap string string) (loc : Location) : World :=
  run (useEffect_mount initial_component) (initial storage loc).

Definition user_request (token : string) : Request :=
  {| method := GET; url := "http://localhost:8000/auth/user";
     headers := [("Authorization", "Bearer " +:+ token)] |}.

Definition info_request : Request :=
  {| method := GET; url := "http://localhost:8000/api/info"; headers := [] |}.

Definition login_request : Request :=
  {| method := GET; url := "http://localhost:8000/auth/login"; headers := [] |}.

Definition protected_request (token : string) : Request :=
  {| method := GET; url := "http://localhost:8000/api/protected";
     headers := [("Authorization", "Bearer " +:+ token)] |}.

Definition logout_request (hs : list (string * string)) : Request :=
  {| method := POST; url := "http://localhost:8000/auth/logout"; headers := hs |}.

(** ** The operations the specification speaks of *)

Inductive Operation : Type :=
| InfoFetch
| UserLookup (token : option string)
| LoginInitiation
| Logout
| ProtectedDataFetch.

Definition body (op : Operation) (render : Component) : Async :=
  match op with
  | InfoFetch => fetchApiInfo
  | UserLookup token => fetchUserInfo render token
  | LoginInitiation => handleLogin
  | Logout => handleLogout render
  | ProtectedDataFetch => fetchProtectedData render
  end.

(** All local authentication state is gone. *)
Definition logged_out (w : World) : Prop :=
  authToken (component w) = None /\
  userInfo (component w) = None /\
  protectedData (component w) = None /\
  localStorage w !! "auth_token" = None /\
  localStorage w !! "session_id" = None.

(** The headers [handleLogout] sends. *)
Definition logout_headers (render : Component) : list (string * string) :=
  when_truthy (authToken render) bearer [].

(** ** Vocabulary of the properties *)

(** What [checkAuthStatus] does to local storage with the 'session'
    parameter, inside the URL-token branch. *)
Definition store_session (params : list (string * string)) : World -> World :=
  when_truthy (get "session" params)
    (fun sessionFromUrl => with_localStorage (insert "session_id" sessionFromUrl))
    (fun w => w).

(** What the [catch] clause of each operation puts in front of the axios
    message; [handleLogout] builds no message. *)
Definition failure_prefix (op : Operation) : option string :=
  match op with
  | InfoFetch => Some "Failed to fetch API info: "
  | UserLookup _ => Some "Failed to fetch user info: "
  | LoginInitiation => Some "Failed to initiate login: "
  | Logout => None
  | ProtectedDataFetch => Some "Failed to fetch protected data: "
  end.

(** The failures covered by the property on error reporting: all but a
    401 on the user lookup. *)
Definition reported (op : Operation) (err : Thrown) : bool :=
  match op with
  | UserLookup _ => negb (is_401 err)
  | _ => true
  end.

(** A request to the protected resource carries a bearer token. *)
Definition authorised (r : Request) : Prop :=
  url r = "http://localhost:8000/api/protected" ->
  exists token : string, token ≠ "" /\ headers r = bearer token.

(** Every request [t] can ever issue, now or after an [await], is
    [authorised]. *)
Fixpoint guarded (t : Async) : Prop :=
  match t with
  | Done => True
  | Do _ k => guarded k
  | localStorage_getItem _ k => forall v, guarded (k v)
  | new_URLSearchParams k => forall v, guarded (k v)
  | location_pathname k => forall v, guarded (k v)
  | Await T r k => authorised r /\ forall o, guarded (k o)
  | Call callee k => guarded callee /\ guarded k
  end.

Definition guarded_pending (p : Pending) : Prop :=
  match p with
  | Pend T r k => forall o : Outcome T, guarded (k o)
  end.

Definition protected_by_token (w : World) : Prop :=
  Forall authorised (requests w) /\ Forall guarded_pending (pending w).

(** *** What a function does, now or after its [await]s *)

(** Every command [t] can ever execute satisfies [P] and every request it
    can ever issue satisfies [R]. *)
Fixpoint every (P : Cmd -> Prop) (R : Request -> Prop) (t : Async) : Prop :=
  match t with
  | Done => True
  | Do c k => P c /\ every P R k
  | localStorage_getItem _ k => forall v, every P R (k v)
  | new_URLSearchParams k => forall v, every P R (k v)
  | location_pathname k => forall v, every P R (k v)
  | Await T r k => R r /\ forall o, every P R (k o)
  | Call callee k => every P R callee /\ every P R k
  end.

Definition every_pending (P : Cmd -> Prop) (R : Request -> Prop)
    (p : Pending) : Prop :=
  match p with
  | Pend T r k => forall o : Outcome T, every P R (k o)
  end.

(** The commands of the handlers other than [checkAuthStatus] and
    [handleLogin]: no token is set, nothing is written to local storage,
    only the two keys of the client are removed, the URL is left alone. *)
Definition calm (c : Cmd) : Prop :=
  match c with
  | setAuthToken (Some _) => False
  | localStorage_setItem _ _ => False
  | history_replaceState _ => False
  | location_set_href _ => False
  | localStorage_removeItem key => key = "auth_token" \/ key = "session_id"
  | _ => True
  end.

(** The same, or the navigation of [handleLogin]. *)
Definition quiet (c : Cmd) : Prop :=
  calm c \/ exists target : string, c = location_set_href target.

(** [c] does not write or remove the local storage key [key]. *)
Definition spares (key : string) (c : Cmd) : Prop :=
  match c with
  | localStorage_setItem key' _ => key' ≠ key
  | localStorage_removeItem key' => key' ≠ key
  | _ => True
  end.

(** A request sent after the page load: not a user lookup, and with no
    headers or with the bearer token [token]. *)
Definition sent_after_load (token : option string) (r : Request) : Prop :=
  url r ≠ "http://localhost:8000/auth/user" /\
  (headers r = [] \/
   exists t : string, token = Some t /\ t ≠ "" /\ headers r = bearer t).

(** The token a page load ends up with: the one of the URL if it is
    non-empty, else the stored one if it is non-empty, else none. *)
Definition effective_token (storage : gmap string string) (loc : Location)
    : option string :=
  let token := or_else (get "token" (search loc)) (storage !! "auth_token") in
  if truthy token then token else None.

(** The state after page load never written to again: local storage only
    loses keys, the location is fixed, the token is kept or cleared. *)
Definition settled_down (storage : gmap string string) (loc : Location)
    (token : option string) (w : World) : Prop :=
  localStorage w ⊆ storage /\
  location w = loc /\
  (authToken (component w) = None \/ authToken (component w) = token).

(** The invariant scheme of the event loop: [I] holds of the state, the
    requests issued since [base] satisfy [R], and the functions
    suspended on a request will only execute commands in [P] and issue
    requests in [R]. *)
Definition kept (base : list Request) (P : Cmd -> Prop) (R : Request -> Prop)
    (I : World -> Prop) (w : World) : Prop :=
  I w /\
  (exists rest : list Request, requests w = base ++ rest /\ Forall R rest) /\
  Forall (every_pending P R) (pending w).

(** The state right after [setLoading(true); setError(null)]. *)
Definition started (w : World) : World :=
  with_component (put_error None) (with_component (put_loading true) w).

(** The message of the guard of [fetchProtectedData] is not on display. *)
Definition no_prompt (w : World) : Prop :=
  error (component w) ≠ Some "Please log in first".

(** Three ways the rest of a suspended function can behave towards the
    token, the user info and the queue.  [plain_rest]: it leaves them
    alone.  [logout_rest]: it clears token and user info.  [lookup_rest]:
    it keeps the token, may set the user info, and may start a function
    whose rest is a [logout_rest].  None of them puts up the prompt. *)
Definition plain_rest (p : Pending) : Prop :=
  match p with
  | Pend T r k =>
      forall (o : Outcome T) (w : World),
        authToken (component (run (k o) w)) = authToken (component w) /\
        userInfo (component (run (k o) w)) = userInfo (component w) /\
        pending (run (k o) w) = pending w /\
        (no_prompt w -> no_prompt (run (k o) w))
  end.

Definition logout_rest (p : Pending) : Prop :=
  match p with
  | Pend T r k =>
      forall (o : Outcome T) (w : World),
        authToken (component (run (k o) w)) = None /\
        userInfo (component (run (k o) w)) = None /\
        pending (run (k o) w) = pending w /\
        (no_prompt w -> no_prompt (run (k o) w))
  end.

Definition lookup_rest (p : Pending) : Prop :=
  match p with
  | Pend T r k =>
      forall (o : Outcome T) (w : World),
        authToken (component (run (k o) w)) = authToken (component w) /\
        (is_Some (userInfo (component (run (k o) w))) \/
         userInfo (component (run (k o) w)) = userInfo (component w)) /\
        (pending (run (k o) w) = pending w \/
         exists q : Pending,
           pending (run (k o) w) = pending w ++ [q] /\ logout_rest q) /\
        (no_prompt w -> no_prompt (run (k o) w))
  end.

Inductive Kind : Type := Plain | LogoutRest | LookupRest.

Definition has_kind (kind : Kind) : Pending -> Prop :=
  match kind with
  | Plain => plain_rest
  | LogoutRest => logout_rest
  | LookupRest => lookup_rest
  end.

Fixpoint count_kind (kind : Kind) (ks : list Kind) : nat :=
  match ks with
  | [] => 0
  | k :: rest =>
      match kind, k with
      | Plain, Plain | LogoutRest, LogoutRest | LookupRest, LookupRest =>
          S (count_kind kind rest)
      | _, _ => count_kind kind rest
      end
  end.

(** The invariant behind "signed in means a token is held": at most one
    user lookup is in flight; while it is, nobody is signed in, a token is
    held and no logout is in flight; and whenever somebody is signed in a
    token is held. *)
Definition session_consistent (w : World) : Prop :=
  no_prompt w /\
  exists ks : list Kind,
    Forall2 has_kind ks (pending w) /\
    count_kind LookupRest ks <= 1 /\
    (count_kind LookupRest ks = 1 ->
     userInfo (component w) = None /\
     truthy (authToken (component w)) = true /\
     count_kind LogoutRest ks = 0) /\
    (is_Some (userInfo (component w)) ->
     truthy (authToken (component w)) = true).

(** The five endpoints of the backend the client knows, each with its
    method. *)
Definition endpoint (r : Request) : Prop :=
  (method r, url r) ∈
    [ (GET, "http://localhost:8000/api/info");
      (GET, "http://localhost:8000/auth/user");
      (GET, "http://localhost:8000/auth/login");
      (POST, "http://localhost:8000/auth/logout");
      (GET, "http://localhost:8000/api/protected") ].

(** Whether an operation gets past its guard to its network call: the
    user lookup needs a non-empty [token || authToken], the protected-data
    fetch a non-empty [authToken]; the other three have no guard. *)
Definition reaches_call (op : Operation) (render : Component) : bool :=
  match op with
  | UserLookup token => truthy (or_else token (authToken render))
  | ProtectedDataFetch => truthy (authToken render)
  | InfoFetch | LoginInitiation | Logout => true
  end.

(** The request an operation issues when it gets there. *)
Definition call_of (op : Operation) (render : Component) : Request :=
  match op with
  | InfoFetch => info_request
  | UserLookup token =>
      user_request (default "" (or_else token (authToken render)))
  | LoginInitiation => login_request
  | Logout => logout_request (logout_headers render)
  | ProtectedDataFetch => protected_request (default "" (authToken render))
  end.

(** [c] does not send the browser to another page. *)
Definition stays_on_page (c : Cmd) : Prop :=
  match c with
  | location_set_href _ => False
  | _ => True
  end.

(** * Properties *)

(** ** Sanity checks on concrete runs *)

Example page_load_with_url_token :
  let w := page_load {[ "auth_token" := "old" ]}
             {| pathname := "/"; search := [("token", "abc"); ("session", "s1")] |} in
  authToken (component w) = Some "abc" /\
  localStorage w !! "auth_token" = Some "abc" /\
  localStorage w !! "session_id" = Some "s1" /\
  location w = {| pathname := "/"; search := [] |} /\
  requests w = [user_request "abc"; info_request] /\
  loading (component w) = true.
Proof. vm_compute. repeat split. Qed.

Example page_load_with_stored_token :
  let w := page_load {[ "auth_token" := "old" ]}
             {| pathname := "/"; search := [] |} in
  authToken (component w) = Some "old" /\
  requests w = [user_request "old"; info_request] /\
  length (pending w) = 2.
Proof. vm_compute. repeat split. Qed.

Example page_load_anonymous :
  let w := page_load ∅ {| pathname := "/"; search := [] |} in
  authToken (component w) = None /\ requests w = [info_request].
Proof. vm_compute. repeat split. Qed.

(** ** Generic facts *)

Lemma truthy_Some (s : string) : truthy (Some s) = true <-> s ≠ "".
Proof.
  unfold truthy. destruct (String.eqb_spec s ""); simpl; split; congruence.
Qed.

Lemma truthy_Some_false (s : string) : truthy (Some s) = false <-> s = "".
Proof.
  unfold truthy. destruct (String.eqb_spec s ""); simpl; split; congruence.
Qed.

Lemma when_truthy_true {A : Type} (s : string) (f : string -> A) (e : A) :
  s ≠ "" -> when_truthy (Some s) f e = f s.
Proof. intros H. unfold when_truthy. apply truthy_Some in H. by rewrite H. Qed.

Lemma when_truthy_false {A : Type} (v : option string) (f : string -> A) (e : A) :
  truthy v = false -> when_truthy v f e = e.
Proof. intros H. unfold when_truthy. destruct v; [by rewrite H | done]. Qed.

(** A suspended function can always be resumed: whatever the outcome, the
    event loop has a step that settles its request. *)
Lemma suspends_step (t : Async) (w : World) (T : Type) (r : Request)
    (k : Outcome T -> Async) (o : Outcome T) :
  suspends t w r k ->
  step (run t w) (run (k o) (with_pending (pending w) (run t w))).
Proof.
  intros [_ Hq].
  pose proof (step_settle T r k o (pending w) [] (run t w)) as Hs.
  rewrite app_nil_r in Hs. apply Hs. exact Hq.
Qed.

(** ** Logout *)

Lemma handleLogout_suspends (render : Component) (w : World) :
  exists k : Outcome unit -> Async,
    suspends (handleLogout render) w (logout_request (logout_headers render)) k /\
    loading (component (run (handleLogout render) w)) = true /\
    error (component (run (handleLogout render) w)) = None /\
    (forall (o : Outcome unit) (w' : World),
        logged_out (run (k o) w') /\
        loading (component (run (k o) w')) = false /\
        error (component (run (k o) w')) = error (component w') /\
        requests (run (k o) w') = requests w' /\
        pending (run (k o) w') = pending w') /\
    (forall (err : Thrown) (w' : World),
        console (run (k (Rejected err)) w') = console w' ++ ["Logout Error:"]).
Proof.
  eexists. split; [split; reflexivity |].
  split; [reflexivity |]. split; [reflexivity |].
  split.
  - intros [response | err] w'; cbn;
      (split; [unfold logged_out; cbn; by simplify_map_eq | done]).
  - intros err w'. reflexivity.
Qed.

(** C1. Every run of [handleLogout] issues the POST to /auth/logout and
    suspends.  Whatever the outcome of that request (resolved or
    rejected), the event loop can settle it, and whenever it does the rest
    of the function leaves the auth token, the user info and the protected
    data null and the keys 'auth_token' and 'session_id' absent from local
    storage. *)
Theorem handleLogout_clears_local_state (render : Component) (w : World) :
  exists k : Outcome unit -> Async,
    suspends (handleLogout render) w (logout_request (logout_headers render)) k /\
    (forall o : Outcome unit,
        step (run (handleLogout render) w)
          (run (k o) (with_pending (pending w) (run (handleLogout render) w)))) /\
    (forall (o : Outcome unit) (w' : World), logged_out (run (k o) w')).
Proof.
  destruct (handleLogout_suspends render w) as (k & Hs & _ & _ & Hk & _).
  exists k. split; [exact Hs |]. split.
  - intros o. by apply suspends_step with (r := logout_request (logout_headers render)).
  - intros o w'. apply Hk.
Qed.

(** ** Protected data *)

(** Without a usable token, [fetchProtectedData] only sets the message. *)
Lemma fetchProtectedData_falsy (render : Component) (w : World) :
  truthy (authToken render) = false ->
  run (fetchProtectedData render) w
  = with_component (put_error (Some "Please log in first")) w.
Proof.
  intros H. unfold fetchProtectedData. by rewrite when_truthy_false.
Qed.

Lemma fetchProtectedData_truthy (render : Component) (w : World) (token : string) :
  authToken render = Some token -> token ≠ "" ->
  exists k : Outcome ProtectedData.t -> Async,
    suspends (fetchProtectedData render) w (protected_request token) k /\
    loading (component (run (fetchProtectedData render) w)) = true /\
    (forall (response : Response ProtectedData.t) (w' : World),
        protectedData (component (run (k (Resolved response)) w'))
        = Some (data response)) /\
    (forall (o : Outcome ProtectedData.t) (w' : World),
        loading (component (run (k o) w')) = false /\
        requests (run (k o) w') = requests w' /\
        pending (run (k o) w') = pending w') /\
    (forall (err : Thrown) (w' : World),
        error (component (run (k (Rejected err)) w'))
        = Some (errorMessage "Failed to fetch protected data: " err)).
Proof.
  intros Htok Hne. unfold fetchProtectedData. rewrite Htok.
  rewrite when_truthy_true by done.
  eexists. split; [split; reflexivity |]. split; [reflexivity |].
  split; [reflexivity |]. split; [| reflexivity].
  by intros [response | err] w'.
Qed.

(** C3. A call of [fetchProtectedData] from a render whose auth token is
    null returns at once: it issues no request (so none to /api/protected),
    leaves nothing in flight and does not touch the protected data; the
    'Try Access Game Data' button of that render is disabled. *)
Theorem fetchProtectedData_requires_token (render : Component) (w : World) :
  authToken render = None ->
  requests (run (fetchProtectedData render) w) = requests w /\
  pending (run (fetchProtectedData render) w) = pending w /\
  protectedData (component (run (fetchProtectedData render) w))
  = protectedData (component w) /\
  disabled TryAccessGameData render = true.
Proof.
  intros H. rewrite fetchProtectedData_falsy by (by rewrite H).
  unfold disabled. by rewrite H.
Qed.

Lemma fetchProtectedData_requires_token_witness :
  let render := initial_component in
  let w := initial ∅ {| pathname := "/"; search := [] |} in
  requests (run (fetchProtectedData render) w) = requests w /\
  pending (run (fetchProtectedData render) w) = pending w /\
  protectedData (component (run (fetchProtectedData render) w))
  = protectedData (component w) /\
  disabled TryAccessGameData render = true.
Proof.
  exact (fetchProtectedData_requires_token initial_component
           (initial ∅ {| pathname := "/"; search := [] |}) eq_refl).
Defined.

(** C9. Called from a render whose auth token is null, [fetchProtectedData]
    changes nothing but the error message, which becomes
    'Please log in first': the other five state cells, local storage, the
    location and the network are as before. *)
Theorem fetchProtectedData_without_token_frame (render : Component) (w : World) :
  authToken render = None ->
  let w' := run (fetchProtectedData render) w in
  w' = with_component (put_error (Some "Please log in first")) w /\
  error (component w') = Some "Please log in first" /\
  protectedData (component w') = protectedData (component w) /\
  userInfo (component w') = userInfo (component w) /\
  authToken (component w') = authToken (component w) /\
  loading (component w') = loading (component w) /\
  apiInfo (component w') = apiInfo (component w) /\
  localStorage w' = localStorage w /\
  requests w' = requests w /\
  pending w' = pending w.
Proof.
  intros H w'. subst w'. rewrite fetchProtectedData_falsy by (by rewrite H).
  by repeat split.
Qed.

Lemma fetchProtectedData_without_token_frame_witness :
  let w := with_localStorage (insert "session_id" "s1")
             (initial {[ "auth_token" := "abc" ]} {| pathname := "/"; search := [] |}) in
  let w' := run (fetchProtectedData initial_component) w in
  w' = with_component (put_error (Some "Please log in first")) w /\
  error (component w') = Some "Please log in first" /\
  protectedData (component w') = protectedData (component w) /\
  userInfo (component w') = userInfo (component w) /\
  authToken (component w') = authToken (component w) /\
  loading (component w') = loading (component w) /\
  apiInfo (component w') = apiInfo (component w) /\
  localStorage w' = localStorage w /\
  requests w' = requests w /\
  pending w' = pending w.
Proof.
  exact (fetchProtectedData_without_token_frame initial_component
           (with_localStorage (insert "session_id" "s1")
              (initial {[ "auth_token" := "abc" ]}
                 {| pathname := "/"; search := [] |}))
           eq_refl).
Defined.

(** ** The other fetches *)

Lemma fetchApiInfo_suspends (w : World) :
  exists k : Outcome ApiInfo.t -> Async,
    suspends fetchApiInfo w info_request k /\
    loading (component (run fetchApiInfo w)) = true /\
    (forall (o : Outcome ApiInfo.t) (w' : World),
        loading (component (run (k o) w')) = false /\
        requests (run (k o) w') = requests w' /\
        pending (run (k o) w') = pending w') /\
    (forall (err : Thrown) (w' : World),
        error (component (run (k (Rejected err)) w'))
        = Some (errorMessage "Failed to fetch API info: " err)).
Proof.
  eexists. split; [split; reflexivity |]. split; [reflexivity |].
  split; [| reflexivity]. by intros [response | err] w'.
Qed.

Lemma handleLogin_suspends (w : World) :
  exists k : Outcome AuthResponse.t -> Async,
    suspends handleLogin w login_request k /\
    loading (component (run handleLogin w)) = true /\
    (forall (o : Outcome AuthResponse.t) (w' : World),
        loading (component (run (k o) w')) = false /\
        requests (run (k o) w') = requests w' /\
        pending (run (k o) w') = pending w') /\
    (forall (response : Response AuthResponse.t) (w' : World),
        navigation (run (k (Resolved response)) w')
        = Some (AuthResponse.authorization_url (data response))) /\
    (forall (err : Thrown) (w' : World),
        error (component (run (k (Rejected err)) w'))
        = Some (errorMessage "Failed to initiate login: " err)).
Proof.
  eexists. split; [split; reflexivity |]. split; [reflexivity |].
  split; [| split; reflexivity]. by intros [response | err] w'.
Qed.

(** [fetchUserInfo] without a usable token does nothing at all. *)
Lemma fetchUserInfo_falsy (render : Component) (token : option string) (w : World) :
  truthy (or_else token (authToken render)) = false ->
  run (fetchUserInfo render token) w = w.
Proof.
  intros H. unfold fetchUserInfo. by rewrite when_truthy_false.
Qed.

Lemma fetchUserInfo_truthy (render : Component) (token : option string)
    (tokenToUse : string) (w : World) :
  or_else token (authToken render) = Some tokenToUse -> tokenToUse ≠ "" ->
  exists k : Outcome UserInfo.t -> Async,
    suspends (fetchUserInfo render token) w (user_request tokenToUse) k /\
    loading (component (run (fetchUserInfo render token) w)) = true /\
    (forall (response : Response UserInfo.t) (w' : World),
        userInfo (component (run (k (Resolved response)) w'))
        = Some (data response)) /\
    (forall (o : Outcome UserInfo.t) (w' : World),
        loading (component (run (k o) w')) = false) /\
    (* a failure that is not a 401 *)
    (forall (err : Thrown) (w' : World),
        is_401 err = false ->
        run (k (Rejected err)) w'
        = with_component (put_loading false)
            (with_console "User Info Error:"
               (with_component
                  (put_error
                     (Some (errorMessage "Failed to fetch user info: " err))) w'))) /\
    (* a 401 *)
    (forall (err : Thrown) (w' : World),
        is_401 err = true ->
        run (k (Rejected err)) w'
        = with_component (put_loading false)
            (run (handleLogout render)
               (with_console "User Info Error:"
                  (with_component
                     (put_error
                        (Some (errorMessage "Failed to fetch user info: " err))) w')))).
Proof.
  intros Htok Hne. unfold fetchUserInfo. rewrite Htok.
  rewrite when_truthy_true by done.
  eexists. split; [split; reflexivity |]. split; [reflexivity |].
  split; [reflexivity |]. split; [| split].
  - intros [response | err] w'; [done |]. cbn. by destruct (is_401 err).
  - intros err w' H. cbn. by rewrite H.
  - intros err w' H. cbn. by rewrite H.
Qed.

(** ** The loading flag *)

(** C10. The info fetch, the login initiation and the logout always, and
    the user lookup and the protected-data fetch whenever they have a
    non-empty token to use, set the loading flag to true, issue their
    request and suspend; the rest of the function then ends with the flag
    false however the request settles.  The user lookup and the
    protected-data fetch without a token return at their guard: no
    request, flag untouched. *)
Theorem loading_reset_on_completion (op : Operation) (render : Component) (w : World) :
  if reaches_call op render
  then
    exists (T : Type) (k : Outcome T -> Async),
      suspends (body op render) w (call_of op render) k /\
      loading (component (run (body op render) w)) = true /\
      forall (o : Outcome T) (w' : World),
        loading (component (run (k o) w')) = false
  else
    returns (body op render) w /\
    loading (component (run (body op render) w)) = loading (component w).
Proof.
  destruct op as [| token | | |]; unfold body, reaches_call, call_of.
  - destruct (fetchApiInfo_suspends w) as (k & Hs & Hl & Hk & _).
    exists ApiInfo.t, k. split; [exact Hs |]. split; [exact Hl |].
    intros o w'. apply Hk.
  - destruct (truthy (or_else token (authToken render))) eqn:Htruthy.
    + destruct (or_else token (authToken render)) as [tokenToUse |] eqn:Htok;
        [| done].
      apply truthy_Some in Htruthy.
      destruct (fetchUserInfo_truthy render token tokenToUse w Htok Htruthy)
        as (k & Hs & Hl & _ & Hk & _).
      exists UserInfo.t, k. by split.
    + unfold returns. by rewrite fetchUserInfo_falsy.
  - destruct (handleLogin_suspends w) as (k & Hs & Hl & Hk & _).
    exists AuthResponse.t, k. split; [exact Hs |]. split; [exact Hl |].
    intros o w'. apply Hk.
  - destruct (handleLogout_suspends render w) as (k & Hs & Hl & _ & Hk & _).
    exists unit, k. split; [exact Hs |]. split; [exact Hl |].
    intros o w'. apply Hk.
  - destruct (truthy (authToken render)) eqn:Htruthy.
    + destruct (authToken render) as [token |] eqn:Htok; [| done].
      apply truthy_Some in Htruthy.
      destruct (fetchProtectedData_truthy render w token Htok Htruthy)
        as (k & Hs & Hl & _ & Hk & _).
      exists ProtectedData.t, k. split; [exact Hs |]. split; [exact Hl |].
      intros o w'. apply Hk.
    + unfold returns. by rewrite fetchProtectedData_falsy.
Qed.

(** ** A 401 on the user lookup *)

Lemma is_401_spec (err : Thrown) :
  is_401 err = true <-> exists message, err = AxiosError message (Some 401%Z).
Proof.
  destruct err as [message [status |] |]; simpl.
  - rewrite Z.eqb_eq. split.
    + intros ->. by exists message.
    + intros [m Hm]. congruence.
  - split; [done | by intros [m Hm]].
  - split; [done | by intros [m Hm]].
Qed.

(** [handleLogout] called from the [catch] clause of the user lookup,
    followed by the [finally] clause of the lookup: the logout request is in
    flight when the lookup ends. *)
Lemma logout_started_in_catch (render : Component) (w : World) :
  exists k' : Outcome unit -> Async,
    requests (with_component (put_loading false) (run (handleLogout render) w))
    = requests w ++ [logout_request (logout_headers render)] /\
    pending (with_component (put_loading false) (run (handleLogout render) w))
    = pending w ++ [Pend unit (logout_request (logout_headers render)) k'] /\
    forall (o : Outcome unit) (w' : World), logged_out (run (k' o) w').
Proof.
  destruct (handleLogout_suspends render w) as (k' & [Hr Hq] & _ & _ & Hk' & _).
  exists k'. split; [exact Hr |]. split; [exact Hq |]. intros o w'. apply Hk'.
Qed.

(** C4. A user lookup that runs (it has a non-empty token to use) issues
    GET /auth/user and suspends.  If that request is rejected with status
    401, the rest of the function starts [handleLogout]: the POST to
    /auth/logout is issued, and however it settles the auth token, user
    info and protected data end up null and both local storage keys
    removed.  If the request is rejected in any other way (another status,
    no response, a non-axios error), no request is issued and the auth
    token, user info, protected data and local storage stay as they are. *)
Theorem fetchUserInfo_401_triggers_logout (render : Component)
    (token : option string) (tokenToUse : string) (w : World) :
  or_else token (authToken render) = Some tokenToUse ->
  tokenToUse ≠ "" ->
  exists k : Outcome UserInfo.t -> Async,
    suspends (fetchUserInfo render token) w (user_request tokenToUse) k /\
    (forall (message : string) (w' : World),
        exists k' : Outcome unit -> Async,
          suspends (k (Rejected (AxiosError message (Some 401%Z)))) w'
            (logout_request (logout_headers render)) k' /\
          forall (o : Outcome unit) (w'' : World), logged_out (run (k' o) w'')) /\
    (forall (err : Thrown) (w' : World),
        is_401 err = false ->
        returns (k (Rejected err)) w' /\
        authToken (component (run (k (Rejected err)) w')) = authToken (component w') /\
        userInfo (component (run (k (Rejected err)) w')) = userInfo (component w') /\
        protectedData (component (run (k (Rejected err)) w'))
        = protectedData (component w') /\
        localStorage (run (k (Rejected err)) w') = localStorage w').
Proof.
  intros Htok Hne.
  destruct (fetchUserInfo_truthy render token tokenToUse w Htok Hne)
    as (k & Hs & _ & _ & _ & Hother & H401).
  exists k. split; [exact Hs |]. split.
  - intros message w'. unfold suspends. rewrite H401 by done.
    destruct (logout_started_in_catch render
                (with_console "User Info Error:"
                   (with_component
                      (put_error
                         (Some (errorMessage "Failed to fetch user info: "
                                  (AxiosError message (Some 401%Z))))) w')))
      as (k' & Hr & Hq & Hk').
    exists k'. split; [split; [exact Hr | exact Hq] | exact Hk'].
  - intros err w' Herr. unfold returns. rewrite Hother by done. by repeat split.
Qed.

Lemma fetchUserInfo_401_triggers_logout_witness :
  let w := initial {[ "auth_token" := "abc" ]} {| pathname := "/"; search := [] |} in
  exists k : Outcome UserInfo.t -> Async,
    suspends (fetchUserInfo initial_component (Some "abc")) w (user_request "abc") k /\
    (forall (message : string) (w' : World),
        exists k' : Outcome unit -> Async,
          suspends (k (Rejected (AxiosError message (Some 401%Z)))) w'
            (logout_request []) k' /\
          forall (o : Outcome unit) (w'' : World), logged_out (run (k' o) w'')) /\
    (forall (err : Thrown) (w' : World),
        is_401 err = false ->
        returns (k (Rejected err)) w' /\
        authToken (component (run (k (Rejected err)) w')) = authToken (component w') /\
        userInfo (component (run (k (Rejected err)) w')) = userInfo (component w') /\
        protectedData (component (run (k (Rejected err)) w'))
        = protectedData (component w') /\
        localStorage (run (k (Rejected err)) w') = localStorage w').
Proof.
  apply (fetchUserInfo_401_triggers_logout initial_component (Some "abc") "abc");
    [reflexivity | discriminate].
Defined.

(** ** Failures of the network call *)

(** A signed-in user signs out while the backend is unreachable: the
    POST is rejected, and once the rest of [handleLogout] has run the error
    state holds no message. *)
Lemma logout_failure_not_surfaced :
  let render := put_authToken (Some "abc") initial_component in
  let w := with_component (fun _ => render)
             (initial {[ "auth_token" := "abc" ]} {| pathname := "/"; search := [] |}) in
  exists k : Outcome unit -> Async,
    suspends (handleLogout render) w (logout_request (bearer "abc")) k /\
    error (component
             (run (k (Rejected (AxiosError "Network Error" None)))
                (with_pending [] (run (handleLogout render) w)))) = None.
Proof.
  eexists. split; [split; reflexivity | reflexivity].
Qed.

(** C5, amended. The info fetch, the login initiation and the logout
    always, and the user lookup and the protected-data fetch whenever they
    have a non-empty token to use, clear the error state, issue their one
    request and suspend.  When that request is rejected, the rest of the
    operation issues no request; for the info fetch, the login initiation,
    the protected-data fetch, and the user lookup unless the status is
    401, it sets the error state to one message (the operation's prefix
    and the axios message, or 'An unexpected error occurred'); for the
    logout it leaves the error state as it is, which the logout had set to
    null when it started, and writes 'Logout Error:' to the console.
    Without a token the two guarded operations make no network call. *)
Theorem failure_reporting (op : Operation) (render : Component) (w : World) :
  if reaches_call op render
  then
    exists (T : Type) (k : Outcome T -> Async),
      suspends (body op render) w (call_of op render) k /\
      error (component (run (body op render) w)) = None /\
      forall (err : Thrown) (w' : World),
        reported op err = true ->
        requests (run (k (Rejected err)) w') = requests w' /\
        pending (run (k (Rejected err)) w') = pending w' /\
        match failure_prefix op with
        | Some prefix =>
            error (component (run (k (Rejected err)) w'))
            = Some (errorMessage prefix err)
        | None =>
            error (component (run (k (Rejected err)) w')) = error (component w') /\
            console (run (k (Rejected err)) w') = console w' ++ ["Logout Error:"]
        end
  else returns (body op render) w.
Proof.
  destruct op as [| token | | |];
    unfold body, reaches_call, call_of, reported, failure_prefix.
  - destruct (fetchApiInfo_suspends w) as (k & Hs & _ & Hk & Herr).
    exists ApiInfo.t, k. split; [exact Hs |]. split; [reflexivity |].
    intros err w' _. split; [apply Hk |]. split; [apply Hk | apply Herr].
  - destruct (truthy (or_else token (authToken render))) eqn:Htruthy.
    + destruct (or_else token (authToken render)) as [tokenToUse |] eqn:Htok;
        [| done].
      apply truthy_Some in Htruthy.
      destruct (fetchUserInfo_truthy render token tokenToUse w Htok Htruthy)
        as (k & Hs & _ & _ & _ & Hother & _).
      exists UserInfo.t, k. split; [exact Hs |]. split.
      { unfold fetchUserInfo. rewrite Htok.
        by rewrite when_truthy_true by done. }
      intros err w' Herr. apply negb_true_iff in Herr.
      by rewrite Hother by done.
    + unfold returns. by rewrite fetchUserInfo_falsy.
  - destruct (handleLogin_suspends w) as (k & Hs & _ & Hk & _ & Herr).
    exists AuthResponse.t, k. split; [exact Hs |]. split; [reflexivity |].
    intros err w' _. split; [apply Hk |]. split; [apply Hk | apply Herr].
  - destruct (handleLogout_suspends render w) as (k & Hs & _ & Hnone & Hk & Hlog).
    exists unit, k. split; [exact Hs |]. split; [exact Hnone |].
    intros err w' _. split; [apply Hk |]. split; [apply Hk |].
    split; [apply Hk | apply Hlog].
  - destruct (truthy (authToken render)) eqn:Htruthy.
    + destruct (authToken render) as [token |] eqn:Htok; [| done].
      apply truthy_Some in Htruthy.
      destruct (fetchProtectedData_truthy render w token Htok Htruthy)
        as (k & Hs & _ & _ & Hk & Herr).
      exists ProtectedData.t, k. split; [exact Hs |]. split.
      { unfold fetchProtectedData. rewrite Htok.
        by rewrite when_truthy_true by done. }
      intros err w' _. split; [apply Hk |]. split; [apply Hk | apply Herr].
    + unfold returns. by rewrite fetchProtectedData_falsy.
Qed.

(** ** Page load: [checkAuthStatus] *)

(** The branch taken on a non-empty 'token' parameter. *)
Lemma checkAuthStatus_url_token (render : Component) (w : World) (token : string) :
  get "token" (search (location w)) = Some token ->
  token ≠ "" ->
  run (checkAuthStatus render) w
  = run (fetchUserInfo render (Some token))
      (with_location {| pathname := pathname (location w); search := [] |}
         (store_session (search (location w))
            (with_localStorage (insert "auth_token" token)
               (with_component (put_authToken (Some token)) w)))).
Proof.
  intros Hget Hne. unfold checkAuthStatus, store_session. cbn [run].
  rewrite Hget, when_truthy_true by done. cbn [run seq exec].
  destruct (get "session" (search (location w))) as [session |]; [| done].
  unfold when_truthy. by destruct (truthy (Some session)).
Qed.

(** The branch taken otherwise: the stored token, if it is non-empty. *)
Lemma checkAuthStatus_stored_token (render : Component) (w : World) :
  truthy (get "token" (search (location w))) = false ->
  run (checkAuthStatus render) w
  = when_truthy (localStorage w !! "auth_token")
      (fun storedToken =>
         run (fetchUserInfo render (Some storedToken))
           (with_component (put_authToken (Some storedToken)) w))
      w.
Proof.
  intros Hget. unfold checkAuthStatus. cbn [run].
  rewrite when_truthy_false by done. cbn [run].
  destruct (localStorage w !! "auth_token") as [storedToken |]; [| done].
  unfold when_truthy. by destruct (truthy (Some storedToken)).
Qed.

(** Started with an explicit non-empty token, the user lookup sets the
    loading flag, clears the error, and issues its request. *)
Lemma fetchUserInfo_explicit (render : Component) (token : string) (w : World) :
  token ≠ "" ->
  exists k : Outcome UserInfo.t -> Async,
    run (fetchUserInfo render (Some token)) w
    = issue (Pend UserInfo.t (user_request token) k)
        (with_component (put_error None) (with_component (put_loading true) w)).
Proof.
  intros Hne. unfold fetchUserInfo, or_else.
  rewrite (proj2 (truthy_Some token)), when_truthy_true by done.
  eexists. reflexivity.
Qed.

Lemma page_load_unfold (storage : gmap string string) (loc : Location) :
  page_load storage loc
  = run fetchApiInfo (run (checkAuthStatus initial_component) (initial storage loc)).
Proof. reflexivity. Qed.

(** A page load with a non-empty 'token' parameter, in full. *)
Lemma page_load_url_token (storage : gmap string string) (loc : Location)
    (token : string) :
  get "token" (search loc) = Some token ->
  token ≠ "" ->
  let w := page_load storage loc in
  authToken (component w) = Some token /\
  localStorage w
  = localStorage
      (store_session (search loc)
         (with_localStorage (insert "auth_token" token) (initial storage loc))) /\
  location w = {| pathname := pathname loc; search := [] |} /\
  requests w = [user_request token; info_request].
Proof.
  intros Hget Hne w. subst w. rewrite page_load_unfold.
  rewrite (checkAuthStatus_url_token _ _ token) by done.
  destruct (fetchUserInfo_explicit initial_component token
              (with_location {| pathname := pathname (location (initial storage loc)); search := [] |}
                 (store_session (search (location (initial storage loc)))
                    (with_localStorage (insert "auth_token" token)
                       (with_component (put_authToken (Some token))
                          (initial storage loc))))) Hne) as [k ->].
  cbn [initial location search pathname]. unfold store_session, when_truthy.
  destruct (get "session" (search loc)) as [session |];
    [destruct (truthy (Some session)) |]; done.
Qed.

(** A page load without a usable 'token' parameter but with a non-empty
    stored token, in full. *)
Lemma page_load_stored_token (storage : gmap string string) (loc : Location)
    (token : string) :
  truthy (get "token" (search loc)) = false ->
  storage !! "auth_token" = Some token ->
  token ≠ "" ->
  let w := page_load storage loc in
  authToken (component w) = Some token /\
  localStorage w = storage /\
  location w = loc /\
  requests w = [user_request token; info_request].
Proof.
  intros Hget Hst Hne w. subst w. rewrite page_load_unfold.
  rewrite checkAuthStatus_stored_token by done.
  cbn [initial localStorage]. rewrite Hst, when_truthy_true by done.
  by destruct (fetchUserInfo_explicit initial_component token
                 (with_component (put_authToken (Some token))
                    (initial storage loc)) Hne) as [k ->].
Qed.

(** A page load with neither: only the info fetch goes out. *)
Lemma page_load_no_token (storage : gmap string string) (loc : Location) :
  truthy (get "token" (search loc)) = false ->
  truthy (storage !! "auth_token") = false ->
  let w := page_load storage loc in
  authToken (component w) = None /\
  localStorage w = storage /\
  location w = loc /\
  requests w = [info_request].
Proof.
  intros Hget Hst w. subst w. rewrite page_load_unfold.
  rewrite checkAuthStatus_stored_token by done.
  cbn [initial localStorage]. by rewrite when_truthy_false by done.
Qed.

(** Without a usable 'token' parameter the page load does not write to
    local storage. *)
Lemma page_load_without_url_token (storage : gmap string string) (loc : Location) :
  truthy (get "token" (search loc)) = false ->
  localStorage (page_load storage loc) = storage.
Proof.
  intros Hget.
  destruct (decide (truthy (storage !! "auth_token") = false)) as [Hst | Hst].
  - by destruct (page_load_no_token storage loc Hget Hst) as (_ & -> & _).
  - destruct (storage !! "auth_token") as [stored |] eqn:Hlook; [| done].
    apply not_false_iff_true, truthy_Some in Hst.
    by destruct (page_load_stored_token storage loc stored Hget Hlook Hst)
      as (_ & -> & _).
Qed.

Lemma store_session_auth_token (params : list (string * string)) (w : World) :
  localStorage (store_session params w) !! "auth_token"
  = localStorage w !! "auth_token".
Proof.
  unfold store_session, when_truthy.
  destruct (get "session" params) as [session |];
    [destruct (truthy (Some session)) |]; try done.
  cbn. by rewrite lookup_insert_ne.
Qed.

Lemma page_load_url_token_stored (storage : gmap string string) (loc : Location)
    (token : string) :
  get "token" (search loc) = Some token ->
  token ≠ "" ->
  localStorage (page_load storage loc) !! "auth_token" = Some token.
Proof.
  intros Hget Hne.
  destruct (page_load_url_token storage loc token Hget Hne) as (_ & -> & _).
  rewrite store_session_auth_token. cbn. by rewrite lookup_insert_eq.
Qed.

(** *** The token of the URL *)

(** A page load on [/?token=]: the parameter is there, its value is the
    empty string, and nothing of what the claim promises happens. *)
Lemma empty_url_token_ignored :
  let loc := {| pathname := "/"; search := [("token", "")] |} in
  let w := page_load ∅ loc in
  get "token" (search loc) = Some "" /\
  authToken (component w) = None /\
  localStorage w !! "auth_token" = None /\
  location w = loc.
Proof. vm_compute. by repeat split. Qed.

(** C2, amended. On a page load whose query string has a 'token' parameter
    with a non-empty value, that value is stored under 'auth_token', it
    becomes the in-memory auth token, and the URL is replaced by the bare
    pathname. *)
Theorem url_token_persisted (storage : gmap string string) (loc : Location)
    (token : string) :
  get "token" (search loc) = Some token ->
  token ≠ "" ->
  let w := page_load storage loc in
  localStorage w !! "auth_token" = Some token /\
  authToken (component w) = Some token /\
  location w = {| pathname := pathname loc; search := [] |}.
Proof.
  intros Hget Hne w.
  destruct (page_load_url_token storage loc token Hget Hne)
    as (Htok & _ & Hloc & _).
  split; [| by split]. by apply page_load_url_token_stored.
Qed.

Lemma url_token_persisted_witness :
  let loc := {| pathname := "/play"; search := [("token", "abc"); ("session", "s1")] |} in
  let w := page_load {[ "auth_token" := "old" ]} loc in
  localStorage w !! "auth_token" = Some "abc" /\
  authToken (component w) = Some "abc" /\
  location w = {| pathname := "/play"; search := [] |}.
Proof.
  apply (url_token_persisted {[ "auth_token" := "old" ]}
           {| pathname := "/play"; search := [("token", "abc"); ("session", "s1")] |}
           "abc"); [reflexivity | discriminate].
Defined.

(** *** The session id of the URL *)

(** Two page loads with a 'session' parameter that is not persisted: one
    without a token in the URL, one where the session value is empty. *)
Lemma url_session_not_persisted :
  (let loc := {| pathname := "/"; search := [("session", "s1")] |} in
   get "session" (search loc) = Some "s1" /\
   localStorage (page_load ∅ loc) !! "session_id" = None) /\
  (let loc := {| pathname := "/"; search := [("token", "abc"); ("session", "")] |} in
   get "session" (search loc) = Some "" /\
   localStorage (page_load ∅ loc) !! "session_id" = None).
Proof. vm_compute. by repeat split. Qed.

(** C6, amended. On a page load whose query string has a 'session'
    parameter, the session id is stored under 'session_id' when it is
    non-empty and the query string also has a non-empty 'token' parameter.
    When the token parameter is missing or empty, or the session value is
    empty, the page load leaves 'session_id' as it was. *)
Theorem url_session_persisted (storage : gmap string string) (loc : Location)
    (session : string) :
  get "session" (search loc) = Some session ->
  (forall token : string,
      get "token" (search loc) = Some token -> token ≠ "" -> session ≠ "" ->
      localStorage (page_load storage loc) !! "session_id" = Some session) /\
  (truthy (get "token" (search loc)) = false \/ session = "" ->
   localStorage (page_load storage loc) !! "session_id" = storage !! "session_id").
Proof.
  intros Hsess. split.
  - intros token Hget Hne Hsne.
    destruct (page_load_url_token storage loc token Hget Hne) as (_ & -> & _).
    unfold store_session. rewrite Hsess, when_truthy_true by done.
    cbn. by rewrite lookup_insert_eq.
  - intros [Hfalse | ->].
    + by rewrite page_load_without_url_token.
    + destruct (decide (truthy (get "token" (search loc)) = false)) as [Hfalse | Htrue].
      { by rewrite page_load_without_url_token. }
      destruct (get "token" (search loc)) as [token |] eqn:Hget; [| done].
      apply not_false_iff_true, truthy_Some in Htrue.
      destruct (page_load_url_token storage loc token Hget Htrue) as (_ & -> & _).
      unfold store_session. rewrite Hsess. cbn. by rewrite lookup_insert_ne.
Qed.

Lemma url_session_persisted_witness :
  let loc := {| pathname := "/"; search := [("token", "abc"); ("session", "s1")] |} in
  get "session" (search loc) = Some "s1" /\
  localStorage (page_load ∅ loc) !! "session_id" = Some "s1".
Proof.
  split; [reflexivity |].
  apply (proj1 (url_session_persisted ∅
                  {| pathname := "/"; search := [("token", "abc"); ("session", "s1")] |}
                  "s1" eq_refl) "abc"); [reflexivity | discriminate | discriminate].
Defined.

(** *** The stored token *)

(** A page load with an empty string stored under 'auth_token': no token
    in memory, no identity fetch. *)
Lemma empty_stored_token_ignored :
  let storage : gmap string string := {[ "auth_token" := "" ]} in
  let loc := {| pathname := "/"; search := [] |} in
  let w := page_load storage loc in
  get "token" (search loc) = None /\
  storage !! "auth_token" = Some "" /\
  authToken (component w) = None /\
  requests w = [info_request].
Proof. vm_compute. by repeat split. Qed.

(** C7, amended. On a page load whose query string has no 'token'
    parameter and where a non-empty token is stored under 'auth_token',
    the stored token becomes the in-memory auth token and the user lookup
    is issued with it: GET /auth/user with the header
    [Authorization: Bearer <token>], ahead of the info fetch; when that
    request resolves the answer becomes the user info. *)
Theorem stored_token_resumed (storage : gmap string string) (loc : Location)
    (token : string) :
  get "token" (search loc) = None ->
  storage !! "auth_token" = Some token ->
  token ≠ "" ->
  let w := page_load storage loc in
  authToken (component w) = Some token /\
  requests w
  = [ {| method := GET; url := "http://localhost:8000/auth/user";
         headers := [("Authorization", "Bearer " +:+ token)] |};
      info_request ] /\
  exists (k : Outcome UserInfo.t -> Async) (k' : Outcome ApiInfo.t -> Async),
    pending w = [Pend UserInfo.t (user_request token) k;
                 Pend ApiInfo.t info_request k'] /\
    forall (response : Response UserInfo.t) (w' : World),
      userInfo (component (run (k (Resolved response)) w')) = Some (data response).
Proof.
  intros Hget Hst Hne w.
  destruct (page_load_stored_token storage loc token) as (Htok & _ & _ & Hreq);
    [by rewrite Hget | done | done |].
  split; [exact Htok |]. split; [exact Hreq |].
  subst w. rewrite page_load_unfold.
  rewrite checkAuthStatus_stored_token by (cbn; by rewrite Hget).
  cbn [initial localStorage]. rewrite Hst, when_truthy_true by done.
  unfold fetchUserInfo, or_else.
  rewrite (proj2 (truthy_Some token)), when_truthy_true by done.
  do 2 eexists. split; reflexivity.
Qed.

Lemma stored_token_resumed_witness :
  let w := page_load {[ "auth_token" := "abc" ]} {| pathname := "/"; search := [] |} in
  authToken (component w) = Some "abc" /\
  requests w
  = [ {| method := GET; url := "http://localhost:8000/auth/user";
         headers := [("Authorization", "Bearer abc")] |};
      info_request ] /\
  exists (k : Outcome UserInfo.t -> Async) (k' : Outcome ApiInfo.t -> Async),
    pending w = [Pend UserInfo.t (user_request "abc") k;
                 Pend ApiInfo.t info_request k'] /\
    forall (response : Response UserInfo.t) (w' : World),
      userInfo (component (run (k (Resolved response)) w')) = Some (data response).
Proof.
  apply (stored_token_resumed {[ "auth_token" := "abc" ]}
           {| pathname := "/"; search := [] |} "abc");
    [reflexivity | reflexivity | discriminate].
Defined.

(** *** URL token against stored token *)

(** A page load on [/?token=] with the token 'abc' in storage: the stored
    token is kept and it is the one the identity fetch uses. *)
Lemma empty_url_token_yields_to_stored :
  let storage : gmap string string := {[ "auth_token" := "abc" ]} in
  let loc := {| pathname := "/"; search := [("token", "")] |} in
  let w := page_load storage loc in
  get "token" (search loc) = Some "" /\
  storage !! "auth_token" = Some "abc" /\
  localStorage w !! "auth_token" = Some "abc" /\
  authToken (component w) = Some "abc" /\
  requests w = [user_request "abc"; info_request].
Proof. vm_compute. by repeat split. Qed.

(** C8, amended. On a page load whose query string has a non-empty 'token'
    parameter while a different token is stored under 'auth_token', the
    URL token overwrites the stored one, becomes the in-memory token and
    is the one sent with the identity fetch; no request carries the stored
    token, and the page load goes exactly as if nothing had been stored. *)
Theorem url_token_takes_precedence (storage : gmap string string) (loc : Location)
    (urlToken stored : string) :
  get "token" (search loc) = Some urlToken ->
  urlToken ≠ "" ->
  storage !! "auth_token" = Some stored ->
  stored ≠ urlToken ->
  let w := page_load storage loc in
  localStorage w !! "auth_token" = Some urlToken /\
  authToken (component w) = Some urlToken /\
  requests w = [user_request urlToken; info_request] /\
  (user_request stored ∉ requests w) /\
  w = page_load (delete "auth_token" storage) loc.
Proof.
  intros Hget Hne Hst Hdiff w.
  pose proof (page_load_url_token_stored storage loc urlToken Hget Hne) as Hls.
  destruct (page_load_url_token storage loc urlToken Hget Hne)
    as (Htok & _ & _ & Hreq).
  split; [exact Hls |]. split; [exact Htok |]. split; [exact Hreq |]. split.
  - subst w. rewrite Hreq. intros Hin.
    apply elem_of_cons in Hin as [Heq | Hin].
    + by simplify_eq/=.
    + apply list_elem_of_singleton in Hin. discriminate Hin.
  - subst w. rewrite !page_load_unfold.
    rewrite !(checkAuthStatus_url_token _ _ urlToken) by done.
    do 4 f_equal. unfold with_localStorage, with_component, initial. cbn.
    f_equal. by rewrite insert_delete_eq.
Qed.

Lemma url_token_takes_precedence_witness :
  let storage : gmap string string := {[ "auth_token" := "old" ]} in
  let loc := {| pathname := "/"; search := [("token", "abc")] |} in
  let w := page_load storage loc in
  localStorage w !! "auth_token" = Some "abc" /\
  authToken (component w) = Some "abc" /\
  requests w = [user_request "abc"; info_request] /\
  (user_request "old" ∉ requests w) /\
  w = page_load (delete "auth_token" storage) loc.
Proof.
  apply (url_token_takes_precedence {[ "auth_token" := "old" ]}
           {| pathname := "/"; search := [("token", "abc")] |} "abc" "old");
    [reflexivity | discriminate | reflexivity | discriminate].
Defined.

(** ** A 401 on the user lookup and the error message *)

(** X2. The message set by the [catch] clause of the user lookup does not
    survive a 401: [handleLogout], called next, starts with
    [setError(null)]. *)
Lemma fetchUserInfo_401_message_overwritten (render : Component)
    (token : option string) (tokenToUse : string) (w : World) :
  or_else token (authToken render) = Some tokenToUse ->
  tokenToUse ≠ "" ->
  exists k : Outcome UserInfo.t -> Async,
    suspends (fetchUserInfo render token) w (user_request tokenToUse) k /\
    forall (message : string) (w' : World),
      error (component (run (k (Rejected (AxiosError message (Some 401%Z)))) w'))
      = None.
Proof.
  intros Htok Hne.
  destruct (fetchUserInfo_truthy render token tokenToUse w Htok Hne)
    as (k & Hs & _ & _ & _ & _ & H401).
  exists k. split; [exact Hs |]. intros message w'. by rewrite H401.
Qed.

Lemma fetchUserInfo_401_message_overwritten_witness :
  let w := initial ∅ {| pathname := "/"; search := [] |} in
  exists k : Outcome UserInfo.t -> Async,
    suspends (fetchUserInfo initial_component (Some "abc")) w (user_request "abc") k /\
    forall (message : string) (w' : World),
      error (component (run (k (Rejected (AxiosError message (Some 401%Z)))) w'))
      = None.
Proof.
  apply (fetchUserInfo_401_message_overwritten initial_component (Some "abc") "abc");
    [reflexivity | discriminate].
Defined.

(** ** An invariant of the event loop: the protected resource is only
    asked for with a bearer token *)

Lemma guarded_seq (t1 t2 : Async) :
  guarded t1 -> guarded t2 -> guarded (seq t1 t2).
Proof.
  intros H1 H2. induction t1 as [| c k IH | key k IH | k IH | k IH | T r k IH | callee IHc k IH];
    simpl in *; try tauto; try (intros v; apply IH; apply H1).
  split; [apply H1 |]. intros o. apply IH, H1.
Qed.

Lemma guarded_when_truthy (v : option string) (f : string -> Async) (e : Async) :
  (forall s, s ≠ "" -> guarded (f s)) -> guarded e -> guarded (when_truthy v f e).
Proof.
  intros Hf He. unfold when_truthy. destruct v as [s |]; [| done].
  destruct (truthy (Some s)) eqn:Hs; [| done]. by apply Hf, truthy_Some.
Qed.

Lemma other_url_authorised (r : Request) :
  url r ≠ "http://localhost:8000/api/protected" -> authorised r.
Proof. intros Hne Heq. done. Qed.

Lemma guarded_fetchApiInfo : guarded fetchApiInfo.
Proof.
  split; [by apply other_url_authorised |].
  intros [response | err]; apply guarded_seq; done.
Qed.

Lemma guarded_handleLogin : guarded handleLogin.
Proof.
  split; [by apply other_url_authorised |].
  intros [response | err]; apply guarded_seq; done.
Qed.

Lemma guarded_handleLogout (render : Component) : guarded (handleLogout render).
Proof.
  split; [by apply other_url_authorised |].
  intros [response | err]; apply guarded_seq; done.
Qed.

Lemma guarded_fetchUserInfo (render : Component) (token : option string) :
  guarded (fetchUserInfo render token).
Proof.
  apply guarded_when_truthy; [| done]. intros tokenToUse _.
  split; [by apply other_url_authorised |].
  intros [response | err]; apply guarded_seq; try done.
  simpl. destruct (is_401 err); [| done].
  split; [apply guarded_handleLogout | done].
Qed.

Lemma guarded_fetchProtectedData (render : Component) :
  guarded (fetchProtectedData render).
Proof.
  apply guarded_when_truthy; [| done]. intros token Hne.
  split; [intros _; by exists token |].
  intros [response | err]; apply guarded_seq; done.
Qed.

Lemma guarded_onClick (b : Button) (render : Component) : guarded (onClick b render).
Proof.
  destruct b; unfold onClick.
  - apply guarded_fetchApiInfo.
  - apply guarded_handleLogout.
  - apply guarded_handleLogin.
  - apply guarded_fetchProtectedData.
  - apply guarded_fetchProtectedData.
Qed.

Lemma guarded_checkAuthStatus (render : Component) : guarded (checkAuthStatus render).
Proof.
  intros urlParams. apply guarded_when_truthy.
  - intros tokenFromUrl _. simpl. apply guarded_seq.
    + by apply guarded_when_truthy.
    + intros path. split; [apply guarded_fetchUserInfo | done].
  - intros storedToken. apply guarded_when_truthy; [| done].
    intros s _. split; [apply guarded_fetchUserInfo | done].
Qed.

(** A synchronous run of a guarded function keeps the invariant. *)
Lemma run_guarded (t : Async) :
  guarded t -> forall w, protected_by_token w -> protected_by_token (run t w).
Proof.
  induction t as [| c k IH | key k IH | k IH | k IH | T r k IH | callee IHc k IH];
    simpl; intros Hg w Hw; auto.
  - apply IH; [done |]. destruct Hw as [Hr Hp]. by destruct c.
  - destruct Hg as [Hr Hk], Hw as [Hrs Hps]. split; simpl.
    + apply Forall_app. split; [done |]. by apply Forall_singleton.
    + apply Forall_app. split; [done |]. by apply Forall_singleton.
  - destruct Hg as [Hc Hk]. auto.
Qed.

Lemma step_protected_by_token (w w' : World) :
  protected_by_token w -> step w w' -> protected_by_token w'.
Proof.
  intros Hw Hstep. destruct Hstep as [b w _ _ | T r k o pre post w Hq].
  - apply run_guarded; [apply guarded_onClick | done].
  - destruct Hw as [Hr Hp]. rewrite Hq in Hp.
    apply Forall_app in Hp as [Hpre Hp]. apply Forall_cons in Hp as [Hk Hpost].
    apply run_guarded; [apply Hk |].
    split; simpl; [done |]. apply Forall_app. by split.
Qed.

Lemma rtc_protected_by_token (w w' : World) :
  rtc step w w' -> protected_by_token w -> protected_by_token w'.
Proof.
  induction 1 as [w | w1 w2 w3 Hstep _ IH]; [done |].
  intros Hw. apply IH. by apply (step_protected_by_token w1).
Qed.

Lemma page_load_protected_by_token (storage : gmap string string) (loc : Location) :
  protected_by_token (page_load storage loc).
Proof.
  apply run_guarded.
  - split; [apply guarded_checkAuthStatus |].
    split; [apply guarded_fetchApiInfo | done].
  - split; constructor.
Qed.

(** X1. Whatever the user clicks and however the requests settle after a
    page load, every request to /api/protected the client has issued carries
    [Authorization: Bearer <token>] with a non-empty token. *)
Theorem protected_requests_carry_token (storage : gmap string string)
    (loc : Location) (w : World) :
  rtc step (page_load storage loc) w ->
  forall r : Request,
    r ∈ requests w ->
    url r = "http://localhost:8000/api/protected" ->
    exists token : string, token ≠ "" /\ headers r = bearer token.
Proof.
  intros Hreach.
  assert (protected_by_token w) as [Hr _].
  { apply (rtc_protected_by_token _ _ Hreach), page_load_protected_by_token. }
  intros r Hin. by apply (proj1 (Forall_forall _ _) Hr).
Qed.

(** A session in which the protected resource is asked for: page load
    with a stored token, the user lookup resolves, the user clicks
    'Access Game Data'. *)
Lemma protected_requests_carry_token_witness :
  exists w : World,
    rtc step
      (page_load {[ "auth_token" := "abc" ]} {| pathname := "/"; search := [] |}) w /\
    protected_request "abc" ∈ requests w /\
    exists token : string,
      token ≠ "" /\ headers (protected_request "abc") = bearer token.
Proof.
  eexists. split; [| split].
  - eapply rtc_l.
    { eapply (step_settle UserInfo.t _ _
                (Resolved {| data := UserInfo.mk "ann@example.org" "Ann" None true None |})
                []).
      reflexivity. }
    eapply rtc_l.
    { apply (step_click AccessGameData); reflexivity. }
    apply rtc_refl.
  - apply list_elem_of_In. vm_compute. tauto.
  - eapply (protected_requests_carry_token {[ "auth_token" := "abc" ]}
              {| pathname := "/"; search := [] |}).
    + eapply rtc_l.
      { eapply (step_settle UserInfo.t _ _
                  (Resolved {| data := UserInfo.mk "ann@example.org" "Ann" None true None |})
                  []).
        reflexivity. }
      eapply rtc_l.
      { apply (step_click AccessGameData); reflexivity. }
      apply rtc_refl.
    + apply list_elem_of_In. vm_compute. tauto.
    + reflexivity.
Defined.

(** ** The logout started by the mount effect *)



(** * Beyond the claims: what the client never does *)

(** ** Commands and requests of the handlers *)

Lemma every_seq (P : Cmd -> Prop) (R : Request -> Prop) (t1 t2 : Async) :
  every P R t1 -> every P R t2 -> every P R (seq t1 t2).
Proof.
  intros H1 H2.
  induction t1 as [| c k IH | key k IH | k IH | k IH | T r k IH | callee _ k IH];
    simpl in *.
  - done.
  - split; [apply H1 | apply IH, H1].
  - intros v. apply IH, H1.
  - intros v. apply IH, H1.
  - intros v. apply IH, H1.
  - split; [apply H1 |]. intros o. apply IH, H1.
  - split; [apply H1 | apply IH, H1].
Qed.

Lemma every_when_truthy (P : Cmd -> Prop) (R : Request -> Prop)
    (v : option string) (f : string -> Async) (e : Async) :
  (forall s, v = Some s -> s ≠ "" -> every P R (f s)) ->
  every P R e -> every P R (when_truthy v f e).
Proof.
  intros Hf He. unfold when_truthy. destruct v as [s |]; [| done].
  destruct (truthy (Some s)) eqn:Hs; [| done]. apply Hf; [done |].
  by apply truthy_Some.
Qed.

Section Handlers.
Variable P : Cmd -> Prop.
Variable R : Request -> Prop.

(** Solve a goal [P c] for a command that [HP] lets through. *)
Ltac allowed_by HP := apply HP; simpl; auto.

Lemma every_fetchApiInfo :
  (forall c, calm c -> P c) -> R info_request -> every P R fetchApiInfo.
Proof.
  intros HP HR. unfold fetchApiInfo. simpl.
  split; [allowed_by HP |]. split; [allowed_by HP |]. split; [exact HR |].
  intros [response | err]; simpl; repeat split; allowed_by HP.
Qed.

Lemma every_handleLogout (render : Component) :
  (forall c, calm c -> P c) ->
  R (logout_request (logout_headers render)) ->
  every P R (handleLogout render).
Proof.
  intros HP HR. unfold handleLogout. simpl.
  split; [allowed_by HP |]. split; [allowed_by HP |]. split; [exact HR |].
  intros [response | err]; simpl; repeat split; allowed_by HP.
Qed.

Lemma every_fetchUserInfo (render : Component) (token : option string) :
  (forall c, calm c -> P c) ->
  (forall t, or_else token (authToken render) = Some t -> t ≠ "" ->
             R (user_request t)) ->
  R (logout_request (logout_headers render)) ->
  every P R (fetchUserInfo render token).
Proof.
  intros HP Huser Hlogout. unfold fetchUserInfo.
  apply every_when_truthy; [| done]. intros t Ht Hne. simpl.
  split; [allowed_by HP |]. split; [allowed_by HP |].
  split; [by apply Huser |].
  intros [response | err]; simpl.
  - repeat split; allowed_by HP.
  - split; [allowed_by HP |]. split; [allowed_by HP |].
    apply every_seq; [| simpl; split; [allowed_by HP | done]].
    destruct (is_401 err); [| done].
    split; [by apply every_handleLogout | done].
Qed.

Lemma every_fetchProtectedData (render : Component) :
  (forall c, calm c -> P c) ->
  (forall t, authToken render = Some t -> t ≠ "" -> R (protected_request t)) ->
  every P R (fetchProtectedData render).
Proof.
  intros HP HR. unfold fetchProtectedData.
  apply every_when_truthy.
  - intros t Ht Hne. simpl.
    split; [allowed_by HP |]. split; [allowed_by HP |].
    split; [by apply HR |].
    intros [response | err]; simpl; repeat split; allowed_by HP.
  - simpl. split; [allowed_by HP | done].
Qed.

Lemma every_handleLogin :
  (forall c, quiet c -> P c) -> R login_request -> every P R handleLogin.
Proof.
  intros HP HR. unfold handleLogin. simpl.
  split; [apply HP; by left |]. split; [apply HP; by left |].
  split; [exact HR |].
  intros [response | err]; simpl; repeat split;
    try (apply HP; by left).
  apply HP. right. by eexists.
Qed.

End Handlers.

(** ** The invariant scheme *)

Section Invariant.
Variable base : list Request.
Variable P : Cmd -> Prop.
Variable R : Request -> Prop.
Variable I : World -> Prop.

(** [I] survives the commands in [P] and does not look at the network. *)
Hypothesis I_exec : forall c w, P c -> I w -> I (exec c w).
Hypothesis I_network :
  forall w rs q, I w ->
    I {| component := component w; localStorage := localStorage w;
         location := location w; navigation := navigation w;
         console := console w; requests := rs; pending := q |}.

(** The handlers of a render in a state where [I] holds stay in [P], [R]. *)
Hypothesis I_onClick :
  forall b w, I w -> every P R (onClick b (component w)).

Lemma run_kept (t : Async) :
  every P R t -> forall w, kept base P R I w -> kept base P R I (run t w).
Proof.
  induction t as [| c k IH | key k IH | k IH | k IH | T r k IH | callee IHc k IH];
    simpl; intros Ht w Hw.
  - done.
  - destruct Ht as [Hc Hk]. apply IH; [done |].
    destruct Hw as (HI & Hr & Hq). split; [by apply I_exec |].
    by destruct c.
  - by apply IH.
  - by apply IH.
  - by apply IH.
  - destruct Ht as [Hr Hk], Hw as (HI & (rest & Hrest & HR) & Hq).
    split; [by apply (I_network w) |]. split.
    + exists (rest ++ [r]). simpl. rewrite Hrest, app_assoc. split; [done |].
      apply Forall_app. split; [done |]. by apply Forall_singleton.
    + simpl. apply Forall_app. split; [done |]. by apply Forall_singleton.
  - destruct Ht as [Hc Hk]. by apply IH, IHc.
Qed.

Lemma step_kept (w w' : World) :
  kept base P R I w -> step w w' -> kept base P R I w'.
Proof.
  intros Hw Hstep. destruct Hstep as [b w _ _ | T r k o pre post w Hq].
  - apply run_kept; [| done]. apply I_onClick, Hw.
  - destruct Hw as (HI & Hr & Hp). rewrite Hq in Hp.
    apply Forall_app in Hp as [Hpre Hp]. apply Forall_cons in Hp as [Hk Hpost].
    apply run_kept; [apply Hk |].
    split; [by apply (I_network w) |]. split; [done |].
    simpl. apply Forall_app. by split.
Qed.

Lemma rtc_kept (w w' : World) :
  rtc step w w' -> kept base P R I w -> kept base P R I w'.
Proof.
  induction 1 as [w | w1 w2 w3 Hstep _ IH]; [done |].
  intros Hw. apply IH. by apply (step_kept w1).
Qed.

End Invariant.

(** ** Local storage: the keys of other code on the page *)

Lemma calm_spares (key : string) (c : Cmd) :
  key ≠ "auth_token" -> key ≠ "session_id" -> calm c -> spares key c.
Proof.
  intros Ha Hs Hc. destruct c; simpl in *; try done.
  by destruct Hc as [-> | ->].
Qed.

Lemma quiet_spares (key : string) (c : Cmd) :
  key ≠ "auth_token" -> key ≠ "session_id" -> quiet c -> spares key c.
Proof.
  intros Ha Hs [Hc | [target ->]]; [by apply calm_spares | done].
Qed.

Lemma spares_exec (key : string) (c : Cmd) (w : World) :
  spares key c -> localStorage (exec c w) !! key = localStorage w !! key.
Proof.
  intros Hc. destruct c; simpl in *; try done.
  - by rewrite lookup_insert_ne.
  - by rewrite lookup_delete_ne.
Qed.

Lemma spares_onClick (key : string) (b : Button) (render : Component) :
  key ≠ "auth_token" -> key ≠ "session_id" ->
  every (spares key) (fun _ => True) (onClick b render).
Proof.
  intros Ha Hs. destruct b; unfold onClick.
  - apply every_fetchApiInfo; [intros c; by apply calm_spares | done].
  - apply every_handleLogout; [intros c; by apply calm_spares | done].
  - apply every_handleLogin; [intros c; by apply quiet_spares | done].
  - apply every_fetchProtectedData; [intros c; by apply calm_spares | done].
  - apply every_fetchProtectedData; [intros c; by apply calm_spares | done].
Qed.

Lemma spares_checkAuthStatus (key : string) (render : Component) :
  key ≠ "auth_token" -> key ≠ "session_id" ->
  every (spares key) (fun _ => True) (checkAuthStatus render).
Proof.
  intros Ha Hs urlParams. apply every_when_truthy.
  - intros tokenFromUrl _ _. simpl. split; [done |]. split; [by apply not_eq_sym |].
    apply every_seq.
    + apply every_when_truthy; [| done]. intros session _ _. simpl.
      split; [by apply not_eq_sym | done].
    + intros path. simpl. split; [done |]. split; [| done].
      apply every_fetchUserInfo; [intros c; by apply calm_spares | done | done].
  - intros storedToken. apply every_when_truthy; [| done].
    intros t _ _. simpl. split; [done |]. split; [| done].
    apply every_fetchUserInfo; [intros c; by apply calm_spares | done | done].
Qed.

(** X4. The client touches two keys of local storage only: under every
    other key, local storage holds what it held before the page load, in
    every state reached from the page load by clicks and settlements. *)
Theorem other_keys_untouched (storage : gmap string string) (loc : Location)
    (key : string) (w : World) :
  key ≠ "auth_token" ->
  key ≠ "session_id" ->
  rtc step (page_load storage loc) w ->
  localStorage w !! key = storage !! key.
Proof.
  intros Ha Hs Hreach.
  set (I := fun w : World => localStorage w !! key = storage !! key).
  assert (forall c w, spares key c -> I w -> I (exec c w)) as I_exec.
  { intros c w0 Hc HI. unfold I. by rewrite spares_exec. }
  assert (kept [] (spares key) (fun _ => True) I w) as [HI _]; [| exact HI].
  apply (rtc_kept [] (spares key) (fun _ => True) I I_exec) with (w := page_load storage loc).
  - done.
  - intros b w0 _. by apply spares_onClick.
  - exact Hreach.
  - apply (run_kept [] (spares key) (fun _ => True) I I_exec); [done | |].
    + split; [by apply spares_checkAuthStatus |].
      split; [| done].
      apply every_fetchApiInfo; [intros c; by apply calm_spares | done].
    + split; [done |]. split; [by exists [] | constructor].
Qed.

Lemma other_keys_untouched_witness :
  exists w : World,
    rtc step
      (page_load {[ "theme" := "dark" ]}
         {| pathname := "/"; search := [("token", "abc"); ("session", "s1")] |}) w /\
    logged_out w /\
    localStorage w !! "theme" = Some "dark".
Proof.
  eexists. split; [| split].
  - eapply rtc_l.
    { eapply (step_settle UserInfo.t _ _ (Rejected (AxiosError "401" (Some 401%Z))) []).
      reflexivity. }
    eapply rtc_l.
    { eapply (step_settle unit _ _ (Resolved {| data := tt |}) [_]).
      reflexivity. }
    apply rtc_refl.
  - vm_compute. by repeat split.
  - transitivity (({[ "theme" := "dark" ]} : gmap string string) !! "theme");
      [| reflexivity].
    eapply (other_keys_untouched {[ "theme" := "dark" ]}
              {| pathname := "/"; search := [("token", "abc"); ("session", "s1")] |}
              "theme"); [discriminate | discriminate |].
    eapply rtc_l.
    { eapply (step_settle UserInfo.t _ _ (Rejected (AxiosError "401" (Some 401%Z))) []).
      reflexivity. }
    eapply rtc_l.
    { eapply (step_settle unit _ _ (Resolved {| data := tt |}) [_]).
      reflexivity. }
    apply rtc_refl.
Defined.

(** ** The handlers, split at their [await] *)

Lemma fetchApiInfo_rest :
  exists k : Outcome ApiInfo.t -> Async,
    (forall w, run fetchApiInfo w = issue (Pend ApiInfo.t info_request k) (started w)) /\
    plain_rest (Pend ApiInfo.t info_request k) /\
    (forall (P : Cmd -> Prop) (R : Request -> Prop),
        (forall c, calm c -> P c) -> forall o, every P R (k o)).
Proof.
  eexists. split; [reflexivity |]. split.
  - intros [response | err] w; cbn; repeat split; try done.
    intros _. by destruct err.
  - intros P R HP [response | err]; simpl; repeat split; apply HP; simpl; auto.
Qed.

Lemma handleLogin_rest :
  exists k : Outcome AuthResponse.t -> Async,
    (forall w, run handleLogin w
               = issue (Pend AuthResponse.t login_request k) (started w)) /\
    plain_rest (Pend AuthResponse.t login_request k).
Proof.
  eexists. split; [reflexivity |].
  intros [response | err] w; cbn; repeat split; try done.
  intros _. by destruct err.
Qed.

Lemma handleLogout_rest (render : Component) :
  exists k : Outcome unit -> Async,
    (forall w, run (handleLogout render) w
               = issue (Pend unit (logout_request (logout_headers render)) k)
                   (started w)) /\
    logout_rest (Pend unit (logout_request (logout_headers render)) k).
Proof.
  eexists. split; [reflexivity |].
  by intros [response | err] w.
Qed.

Lemma fetchProtectedData_rest (render : Component) (token : string) :
  authToken render = Some token ->
  token ≠ "" ->
  exists k : Outcome ProtectedData.t -> Async,
    (forall w, run (fetchProtectedData render) w
               = issue (Pend ProtectedData.t (protected_request token) k)
                   (started w)) /\
    plain_rest (Pend ProtectedData.t (protected_request token) k).
Proof.
  intros Htok Hne. unfold fetchProtectedData. rewrite Htok.
  rewrite when_truthy_true by done.
  eexists. split; [reflexivity |].
  intros [response | err] w; cbn; repeat split; try done.
  intros _. by destruct err.
Qed.

Lemma fetchUserInfo_rest (render : Component) (token : string) :
  token ≠ "" ->
  exists k : Outcome UserInfo.t -> Async,
    (forall w, run (fetchUserInfo render (Some token)) w
               = issue (Pend UserInfo.t (user_request token) k) (started w)) /\
    lookup_rest (Pend UserInfo.t (user_request token) k) /\
    (forall (P : Cmd -> Prop) (R : Request -> Prop),
        (forall c, calm c -> P c) ->
        R (logout_request (logout_headers render)) ->
        forall o, every P R (k o)).
Proof.
  intros Hne. unfold fetchUserInfo, or_else.
  rewrite (proj2 (truthy_Some token)), when_truthy_true by done.
  eexists. split; [reflexivity |]. split.
  - intros [response | err] w.
    + cbn. split; [done |]. split; [by left; eexists |]. split; [by left | done].
    + cbn. destruct (is_401 err).
      * destruct (handleLogout_rest render) as (k' & Hrun & Hk').
        cbn [run seq]. rewrite Hrun. cbn.
        split; [done |]. split; [by right |].
        split; [right; by eexists | done].
      * cbn. split; [done |]. split; [by right |]. split; [by left |].
        intros _. by destruct err.
  - intros P R HP HR [response | err]; simpl.
    + repeat split; apply HP; simpl; auto.
    + split; [apply HP; simpl; auto |]. split; [apply HP; simpl; auto |].
      apply every_seq; [| simpl; split; [apply HP; simpl; auto | done]].
      destruct (is_401 err); [| done].
      split; [by apply every_handleLogout | done].
Qed.

(** ** The page load, in closed form *)

Lemma store_session_component (params : list (string * string)) (w : World) :
  component (store_session params w) = component w /\
  requests (store_session params w) = requests w /\
  pending (store_session params w) = pending w.
Proof.
  unfold store_session, when_truthy.
  destruct (get "session" params) as [session |];
    [destruct (truthy (Some session)) |]; done.
Qed.

Lemma page_load_cases (storage : gmap string string) (loc : Location) :
  (exists (token : string) (w : World),
      effective_token storage loc = Some token /\
      token ≠ "" /\
      page_load storage loc
      = run fetchApiInfo (run (fetchUserInfo initial_component (Some token)) w) /\
      component w = put_authToken (Some token) initial_component /\
      requests w = [] /\
      pending w = [])
  \/
  (effective_token storage loc = None /\
   page_load storage loc = run fetchApiInfo (initial storage loc)).
Proof.
  unfold effective_token, or_else. rewrite page_load_unfold.
  destruct (truthy (get "token" (search loc))) eqn:Hurl.
  - destruct (get "token" (search loc)) as [token |] eqn:Hget; [| done].
    apply truthy_Some in Hurl. left. eexists token, _.
    rewrite (proj2 (truthy_Some token)) by done.
    split; [done |]. split; [done |].
    rewrite (checkAuthStatus_url_token _ _ token) by done.
    split; [reflexivity |]. cbn [component requests pending with_location].
    by destruct (store_session_component (search (location (initial storage loc)))
                   (with_localStorage (insert "auth_token" token)
                      (with_component (put_authToken (Some token))
                         (initial storage loc)))) as (-> & -> & ->).
  - rewrite checkAuthStatus_stored_token by done. cbn [initial localStorage].
    destruct (truthy (storage !! "auth_token")) eqn:Hst.
    + destruct (storage !! "auth_token") as [token |] eqn:Hlook; [| done].
      apply truthy_Some in Hst. left. eexists token, _.
      rewrite when_truthy_true by done. by repeat split.
    + right. by rewrite when_truthy_false by done.
Qed.

Lemma effective_token_nonempty (storage : gmap string string) (loc : Location)
    (token : string) :
  effective_token storage loc = Some token -> token ≠ "".
Proof.
  unfold effective_token. intros H.
  destruct (truthy (or_else (get "token" (search loc)) (storage !! "auth_token")))
    eqn:Ht; [| done].
  rewrite H in Ht. by apply truthy_Some.
Qed.

(** Everything the later invariants need to know about the state a page
    load ends in. *)
Lemma page_load_summary (storage : gmap string string) (loc : Location) :
  let w := page_load storage loc in
  authToken (component w) = effective_token storage loc /\
  userInfo (component w) = None /\
  error (component w) = None /\
  requests w
  = match effective_token storage loc with
    | Some token => [user_request token; info_request]
    | None => [info_request]
    end /\
  Forall2 has_kind
    match effective_token storage loc with
    | Some _ => [LookupRest; Plain]
    | None => [Plain]
    end (pending w) /\
  (forall (P : Cmd -> Prop) (R : Request -> Prop),
      (forall c, calm c -> P c) -> R (logout_request []) ->
      Forall (every_pending P R) (pending w)).
Proof.
  destruct (fetchApiInfo_rest) as (k2 & Hrun2 & Hk2 & He2).
  destruct (page_load_cases storage loc)
    as [(token & w0 & -> & Hne & -> & Hc & Hr & Hq) | [-> ->]].
  - destruct (fetchUserInfo_rest initial_component token Hne)
      as (k1 & Hrun1 & Hk1 & He1).
    rewrite Hrun1, Hrun2. cbn. rewrite Hc, Hr, Hq. cbn.
    split_and!; try done.
    + constructor; [exact Hk1 |]. constructor; [exact Hk2 | constructor].
    + intros P R HP HR.
      constructor; [intros o; by apply He1 |].
      constructor; [intros o; by apply He2 | constructor].
  - rewrite Hrun2. cbn. split_and!; try done.
    + constructor; [exact Hk2 | constructor].
    + intros P R HP HR. constructor; [intros o; by apply He2 | constructor].
Qed.

(** ** After the page load: storage, URL, token, credentials *)

Lemma settled_down_exec (storage : gmap string string) (loc : Location)
    (token : option string) (c : Cmd) (w : World) :
  quiet c ->
  settled_down storage loc token w ->
  settled_down storage loc token (exec c w).
Proof.
  intros [Hc | [target ->]] (Hs & Hl & Ht); [| done].
  destruct c as [| | | | | v | | key | | |]; simpl in *; try done.
  - destruct v; [done |]. split; [done |]. split; [done | by left].
  - split; [| done]. etrans; [apply delete_subseteq | done].
Qed.

Lemma sent_logout (token : option string) (render : Component) :
  authToken render = None \/ authToken render = token ->
  sent_after_load token (logout_request (logout_headers render)).
Proof.
  intros Ht. split; [done |]. unfold logout_headers, when_truthy.
  cbn [headers logout_request].
  destruct (authToken render) as [t |] eqn:Hr; [| by left].
  destruct (truthy (Some t)) eqn:Htr; [| by left].
  right. exists t. destruct Ht as [Ht | Ht]; [done |].
  split; [done |]. split; [by apply truthy_Some | done].
Qed.

Lemma sent_protected (token : option string) (render : Component) (t : string) :
  authToken render = None \/ authToken render = token ->
  authToken render = Some t ->
  t ≠ "" ->
  sent_after_load token (protected_request t).
Proof.
  intros Ht Hr Hne. split; [done |]. right. exists t.
  destruct Ht as [Ht | Ht]; [congruence |]. split; [congruence | done].
Qed.

Lemma settled_onClick (token : option string) (b : Button) (render : Component) :
  authToken render = None \/ authToken render = token ->
  every quiet (sent_after_load token) (onClick b render).
Proof.
  intros Ht. destruct b; unfold onClick.
  - apply every_fetchApiInfo; [intros c; by left |]. split; [done | by left].
  - apply every_handleLogout; [intros c; by left | by apply sent_logout].
  - apply every_handleLogin; [done |]. split; [done | by left].
  - apply every_fetchProtectedData; [intros c; by left |].
    intros t Hr Hne. by apply (sent_protected token render).
  - apply every_fetchProtectedData; [intros c; by left |].
    intros t Hr Hne. by apply (sent_protected token render).
Qed.

(** The invariant of the session that follows a page load. *)
Lemma after_page_load (storage : gmap string string) (loc : Location) (w : World) :
  rtc step (page_load storage loc) w ->
  kept (requests (page_load storage loc)) quiet
    (sent_after_load (effective_token storage loc))
    (settled_down (localStorage (page_load storage loc))
       (location (page_load storage loc)) (effective_token storage loc))
    w.
Proof.
  intros Hreach.
  destruct (page_load_summary storage loc) as (Htok & _ & _ & _ & _ & Hevery).
  eapply rtc_kept; [| | | exact Hreach |].
  - intros c w0. apply settled_down_exec.
  - by intros w0 rs q.
  - intros b w0 (_ & _ & Ht). by apply settled_onClick.
  - split; [| split].
    + split; [done |]. split; [done | by right].
    + exists []. by rewrite app_nil_r.
    + apply Hevery; [intros c; by left |]. split; [done | by left].
Qed.

(** A session used in the examples: the page loads with the token 'abc'
    in storage and the user lookup resolves. *)
Lemma example_signed_in :
  exists w : World,
    rtc step (page_load {[ "auth_token" := "abc" ]} {| pathname := "/"; search := [] |}) w /\
    is_Some (userInfo (component w)) /\
    localStorage w !! "auth_token" = Some "abc" /\
    loading (component w) = false.
Proof.
  eexists. split.
  - eapply rtc_l; [| apply rtc_refl].
    eapply (step_settle UserInfo.t _ _
              (Resolved {| data := UserInfo.mk "ann@example.org" "Ann" None true None |})
              []).
    reflexivity.
  - split; [by eexists |]. split; reflexivity.
Qed.

(** A session that ends in the sign-in redirect: the page loads with a
    token in the URL, the info fetch resolves, the user lookup is
    rejected without a status, the user clicks 'Sign in with Google' and
    the backend answers. *)
Lemma example_redirected :
  exists w : World,
    rtc step
      (page_load ∅ {| pathname := "/play"; search := [("token", "abc")] |}) w /\
    navigation w = Some "https://accounts.example/o/oauth2".
Proof.
  eexists. split.
  - eapply rtc_l.
    { eapply (step_settle ApiInfo.t _ _
                (Resolved {| data := ApiInfo.mk "Boardgame App" "" "Google" 1 |})
                [_]).
      reflexivity. }
    eapply rtc_l.
    { eapply (step_settle UserInfo.t _ _
                (Rejected (AxiosError "Network Error" None)) []).
      reflexivity. }
    eapply rtc_l.
    { apply (step_click SignIn); reflexivity. }
    eapply rtc_l; [| apply rtc_refl].
    eapply (step_settle AuthResponse.t _ _
              (Resolved {| data := AuthResponse.mk
                                     "https://accounts.example/o/oauth2" "xyz" |})
              []).
    reflexivity.
  - reflexivity.
Qed.

(** X5. After the page load the client never writes to local storage
    again: whatever a later state holds under a key, the state at the end
    of the page load held under it. *)
Theorem storage_never_written_after_load (storage : gmap string string)
    (loc : Location) (w : World) (key value : string) :
  rtc step (page_load storage loc) w ->
  localStorage w !! key = Some value ->
  localStorage (page_load storage loc) !! key = Some value.
Proof.
  intros Hreach Hlook.
  destruct (after_page_load storage loc w Hreach) as ((Hsub & _) & _).
  by apply (lookup_weaken (localStorage w)).
Qed.

Lemma storage_never_written_after_load_witness :
  exists w : World,
    rtc step (page_load {[ "auth_token" := "abc" ]} {| pathname := "/"; search := [] |}) w /\
    localStorage w !! "auth_token" = Some "abc" /\
    localStorage (page_load {[ "auth_token" := "abc" ]} {| pathname := "/"; search := [] |})
      !! "auth_token" = Some "abc".
Proof.
  destruct example_signed_in as (w & Hreach & _ & Hlook & _).
  exists w. split; [exact Hreach |]. split; [exact Hlook |].
  exact (storage_never_written_after_load _ _ w "auth_token" "abc" Hreach Hlook).
Defined.

(** *** The address of the page *)

Lemma calm_stays_on_page (c : Cmd) : calm c -> stays_on_page c.
Proof. by destruct c. Qed.

Lemma stays_on_page_exec (c : Cmd) (w : World) :
  stays_on_page c -> navigation w = None -> navigation (exec c w) = None.
Proof. by destruct c. Qed.

Lemma stays_on_page_checkAuthStatus (render : Component) :
  every stays_on_page (fun _ => True) (checkAuthStatus render).
Proof.
  intros urlParams. apply every_when_truthy.
  - intros tokenFromUrl _ _. simpl. split; [done |]. split; [done |].
    apply every_seq.
    + by apply every_when_truthy.
    + intros path. simpl. split; [done |]. split; [| done].
      apply every_fetchUserInfo; [apply calm_stays_on_page | done | done].
  - intros storedToken. apply every_when_truthy; [| done].
    intros t _ _. simpl. split; [done |]. split; [| done].
    apply every_fetchUserInfo; [apply calm_stays_on_page | done | done].
Qed.

(** Requests are only ever added to the log. *)
Lemma requests_grow (t : Async) (w : World) (r : Request) :
  r ∈ requests w -> r ∈ requests (run t w).
Proof.
  revert w.
  induction t as [| c k IH | key k IH | k IH | k IH | T r' k IH | callee IHc k IH];
    simpl; intros w Hin; auto.
  - apply IH. by destruct c.
  - apply elem_of_app. by left.
Qed.

(** Until the sign-in request has been issued, nothing has sent the
    browser elsewhere and nothing in flight will. *)
Lemma signed_in_or_on_page (storage : gmap string string) (loc : Location)
    (w : World) :
  rtc step (page_load storage loc) w ->
  login_request ∈ requests w \/
  kept [] stays_on_page (fun _ => True) (fun w => navigation w = None) w.
Proof.
  intros Hreach.
  assert (forall c w, stays_on_page c -> navigation w = None ->
                      navigation (exec c w) = None) as I_exec
    by apply stays_on_page_exec.
  cut (forall w0 w1, rtc step w0 w1 ->
         login_request ∈ requests w0 \/
         kept [] stays_on_page (fun _ => True) (fun w => navigation w = None) w0 ->
         login_request ∈ requests w1 \/
         kept [] stays_on_page (fun _ => True) (fun w => navigation w = None) w1).
  { intros H. apply (H _ _ Hreach). right.
    apply (run_kept [] stays_on_page (fun _ => True) _ I_exec); [done | |].
    - split; [apply stays_on_page_checkAuthStatus |]. split; [| done].
      apply every_fetchApiInfo; [apply calm_stays_on_page | done].
    - split; [done |]. split; [by exists [] | constructor]. }
  clear Hreach. induction 1 as [w0 | w0 w1 w2 Hstep _ IH]; [done |].
  intros Hw. apply IH. clear IH.
  destruct Hstep as [b w0 _ _ | T r k o pre post w0 Hq].
  - destruct Hw as [Hin | Hw]; [left; by apply requests_grow |].
    destruct b; unfold onClick.
    + right. apply (run_kept [] stays_on_page (fun _ => True) _ I_exec);
        [done | | done].
      apply every_fetchApiInfo; [apply calm_stays_on_page | done].
    + right. apply (run_kept [] stays_on_page (fun _ => True) _ I_exec);
        [done | | done].
      apply every_handleLogout; [apply calm_stays_on_page | done].
    + left. destruct handleLogin_rest as (k & -> & _). cbn.
      apply elem_of_app. right. by apply list_elem_of_singleton.
    + right. apply (run_kept [] stays_on_page (fun _ => True) _ I_exec);
        [done | | done].
      apply every_fetchProtectedData; [apply calm_stays_on_page | done].
    + right. apply (run_kept [] stays_on_page (fun _ => True) _ I_exec);
        [done | | done].
      apply every_fetchProtectedData; [apply calm_stays_on_page | done].
  - destruct Hw as [Hin | (Hnav & Hreq & Hp)]; [left; by apply requests_grow |].
    right. rewrite Hq in Hp.
    apply Forall_app in Hp as [Hpre Hp]. apply Forall_cons in Hp as [Hk Hpost].
    apply (run_kept [] stays_on_page (fun _ => True) _ I_exec);
      [done | apply Hk |].
    split; [done |]. split; [done |]. simpl. apply Forall_app. by split.
Qed.

(** X6. After the page load the client never rewrites the address of the
    page again: as long as the document lives, [window.location] is the
    bare pathname if the query string had a non-empty 'token' parameter,
    and the location the page was loaded with otherwise.  The only way the
    browser is sent elsewhere is the sign-in redirect: [location.href] has
    been assigned only in states where GET /auth/login has been issued. *)
Theorem location_fixed_after_load (storage : gmap string string)
    (loc : Location) (w : World) :
  rtc step (page_load storage loc) w ->
  location w
  = (if truthy (get "token" (search loc))
     then {| pathname := pathname loc; search := [] |}
     else loc) /\
  (navigation w = None \/
   {| method := GET; url := "http://localhost:8000/auth/login"; headers := [] |}
   ∈ requests w).
Proof.
  intros Hreach. split.
  - destruct (after_page_load storage loc w Hreach) as ((_ & -> & _) & _).
    destruct (truthy (get "token" (search loc))) eqn:Hurl.
    + destruct (get "token" (search loc)) as [token |] eqn:Hget; [| done].
      apply truthy_Some in Hurl.
      by destruct (page_load_url_token storage loc token Hget Hurl)
        as (_ & _ & -> & _).
    + destruct (decide (truthy (storage !! "auth_token") = false)) as [Hst | Hst].
      * by destruct (page_load_no_token storage loc Hurl Hst) as (_ & _ & -> & _).
      * destruct (storage !! "auth_token") as [stored |] eqn:Hlook; [| done].
        apply not_false_iff_true, truthy_Some in Hst.
        by destruct (page_load_stored_token storage loc stored Hurl Hlook Hst)
          as (_ & _ & -> & _).
  - destruct (signed_in_or_on_page storage loc w Hreach) as [Hin | (Hnav & _)].
    + by right.
    + by left.
Qed.

Lemma location_fixed_after_load_witness :
  exists w : World,
    rtc step
      (page_load ∅ {| pathname := "/play"; search := [("token", "abc")] |}) w /\
    navigation w = Some "https://accounts.example/o/oauth2" /\
    location w = {| pathname := "/play"; search := [] |} /\
    (navigation w = None \/
     {| method := GET; url := "http://localhost:8000/auth/login"; headers := [] |}
     ∈ requests w).
Proof.
  destruct example_redirected as (w & Hreach & Hnav).
  exists w. split; [exact Hreach |]. split; [exact Hnav |].
  exact (location_fixed_after_load _ _ w Hreach).
Defined.

(** X7. The token in memory after the page load is the effective token;
    from then on it is only ever cleared, and the only credential the
    client ever sends is that token: every request it has issued carries
    no header at all or [Authorization: Bearer <that token>]. *)
Theorem only_the_page_load_token_is_sent (storage : gmap string string)
    (loc : Location) (w : World) :
  rtc step (page_load storage loc) w ->
  (authToken (component w) = None \/
   authToken (component w) = effective_token storage loc) /\
  forall r : Request,
    r ∈ requests w ->
    headers r = [] \/
    exists token : string,
      effective_token storage loc = Some token /\ token ≠ "" /\
      headers r = [("Authorization", "Bearer " +:+ token)].
Proof.
  intros Hreach.
  destruct (after_page_load storage loc w Hreach)
    as ((_ & _ & Htok) & (rest & -> & Hrest) & _).
  split; [exact Htok |]. intros r Hin.
  apply elem_of_app in Hin as [Hin | Hin].
  - destruct (page_load_summary storage loc) as (_ & _ & _ & Hreq & _).
    rewrite Hreq in Hin.
    destruct (effective_token storage loc) as [token |] eqn:Heff.
    + apply elem_of_cons in Hin as [-> | Hin].
      * right. exists token. split; [done |].
        split; [by apply (effective_token_nonempty storage loc) | done].
      * apply list_elem_of_singleton in Hin as ->. by left.
    + apply list_elem_of_singleton in Hin as ->. by left.
  - by destruct (proj1 (Forall_forall _ _) Hrest r Hin) as [_ Hh].
Qed.

Lemma only_the_page_load_token_is_sent_witness :
  let w := page_load {[ "auth_token" := "abc" ]} {| pathname := "/"; search := [] |} in
  (authToken (component w) = None \/
   authToken (component w)
   = effective_token {[ "auth_token" := "abc" ]} {| pathname := "/"; search := [] |}) /\
  forall r : Request,
    r ∈ requests w ->
    headers r = [] \/
    exists token : string,
      effective_token {[ "auth_token" := "abc" ]} {| pathname := "/"; search := [] |}
      = Some token /\ token ≠ "" /\
      headers r = [("Authorization", "Bearer " +:+ token)].
Proof.
  apply (only_the_page_load_token_is_sent {[ "auth_token" := "abc" ]}
           {| pathname := "/"; search := [] |}).
  apply rtc_refl.
Defined.

(** X8. The user lookup is issued by the page load, at most once, and by
    nothing else: in every later state the requests to /auth/user are the
    one of the page load, if it had an effective token, and none
    otherwise. *)
Theorem user_lookup_only_at_page_load (storage : gmap string string)
    (loc : Location) (w : World) :
  rtc step (page_load storage loc) w ->
  filter (fun r => url r = "http://localhost:8000/auth/user") (requests w)
  = match effective_token storage loc with
    | Some token => [user_request token]
    | None => []
    end.
Proof.
  intros Hreach.
  destruct (after_page_load storage loc w Hreach) as (_ & (rest & -> & Hrest) & _).
  destruct (page_load_summary storage loc) as (_ & _ & _ & -> & _).
  rewrite filter_app.
  assert (filter (fun r => url r = "http://localhost:8000/auth/user") rest = [])
    as ->.
  { induction Hrest as [| r rest [Hr _] _ IH]; [done |].
    by rewrite filter_cons_False. }
  rewrite app_nil_r. by destruct (effective_token storage loc).
Qed.

Lemma user_lookup_only_at_page_load_witness :
  exists w : World,
    rtc step (page_load {[ "auth_token" := "abc" ]} {| pathname := "/"; search := [] |}) w /\
    is_Some (userInfo (component w)) /\
    filter (fun r => url r = "http://localhost:8000/auth/user") (requests w)
    = [user_request "abc"].
Proof.
  destruct example_signed_in as (w & Hreach & Hu & _).
  exists w. split; [exact Hreach |]. split; [exact Hu |].
  exact (user_lookup_only_at_page_load _ _ w Hreach).
Defined.

(** ** Signed in means a token is held *)

Lemma count_kind_app (kind : Kind) (ks1 ks2 : list Kind) :
  count_kind kind (ks1 ++ ks2) = count_kind kind ks1 + count_kind kind ks2.
Proof.
  induction ks1 as [| k ks1 IH]; [done |].
  destruct kind, k; simpl; lia.
Qed.

(** A handler that starts with [setLoading(true); setError(null)] and
    suspends on a request whose rest is not a lookup keeps the session
    consistent; a logout may only be started while somebody is signed
    in. *)
Lemma session_consistent_issue (kind : Kind) (p : Pending) (w : World) :
  has_kind kind p ->
  kind ≠ LookupRest ->
  (kind = LogoutRest -> is_Some (userInfo (component w))) ->
  session_consistent w ->
  session_consistent (issue p (started w)).
Proof.
  intros Hp Hkind Hout (_ & ks & HF & Hle & Hone & Hin).
  split; [done |]. exists (ks ++ [kind]).
  split; [apply Forall2_app; [exact HF | by constructor] |].
  cbn [component issue started with_component put_error put_loading
       authToken userInfo].
  rewrite !count_kind_app.
  destruct kind; [| | done]; simpl.
  - rewrite !Nat.add_0_r. split; [done |]. split; [| done].
    intros H1. destruct (Hone H1) as (Hu & Ht & Hl). by rewrite Hl.
  - rewrite !Nat.add_0_r. split; [done |]. split; [| done].
    intros H1. destruct (Hone H1) as (Hu & _). rewrite Hu in Hout.
    by destruct (Hout eq_refl).
Qed.

(** An enabled game-data button sees a token, in a consistent session. *)
Lemma game_button_has_token (b : Button) (w : World) :
  b = AccessGameData \/ b = TryAccessGameData ->
  shown b (component w) = true ->
  disabled b (component w) = false ->
  session_consistent w ->
  exists token : string,
    authToken (component w) = Some token /\ token ≠ "".
Proof.
  intros Hb Hshown Hen (_ & ks & _ & _ & _ & Hin).
  assert (truthy (authToken (component w)) = true) as Ht.
  { destruct Hb as [-> | ->]; simpl in *.
    - apply Hin. by apply bool_decide_eq_true in Hshown.
    - apply orb_false_iff in Hen as [Hen _]. by apply negb_false_iff in Hen. }
  destruct (authToken (component w)) as [token |]; [| done].
  exists token. split; [done |]. by apply truthy_Some.
Qed.

Lemma session_consistent_click (b : Button) (w : World) :
  shown b (component w) = true ->
  disabled b (component w) = false ->
  session_consistent w ->
  session_consistent (run (onClick b (component w)) w).
Proof.
  intros Hshown Hen Hw. destruct b; unfold onClick.
  - destruct fetchApiInfo_rest as (k & -> & Hk & _).
    by apply (session_consistent_issue Plain).
  - destruct (handleLogout_rest (component w)) as (k & -> & Hk).
    apply (session_consistent_issue LogoutRest); try done.
    intros _. by apply bool_decide_eq_true in Hshown.
  - destruct handleLogin_rest as (k & -> & Hk).
    by apply (session_consistent_issue Plain).
  - destruct (game_button_has_token AccessGameData w) as (token & Ht & Hne);
      [by left | done | done | done |].
    destruct (fetchProtectedData_rest (component w) token Ht Hne) as (k & -> & Hk).
    by apply (session_consistent_issue Plain).
  - destruct (game_button_has_token TryAccessGameData w) as (token & Ht & Hne);
      [by right | done | done | done |].
    destruct (fetchProtectedData_rest (component w) token Ht Hne) as (k & -> & Hk).
    by apply (session_consistent_issue Plain).
Qed.

Lemma session_consistent_settle (T : Type) (r : Request) (k : Outcome T -> Async)
    (o : Outcome T) (pre post : list Pending) (w : World) :
  pending w = pre ++ Pend T r k :: post ->
  session_consistent w ->
  session_consistent (run (k o) (with_pending (pre ++ post) w)).
Proof.
  intros Hq (Hnp & ks & HF & Hle & Hone & Hin).
  rewrite Hq in HF.
  apply Forall2_app_inv_r in HF as (ks1 & ks' & HF1 & HF' & ->).
  apply Forall2_cons_inv_r in HF' as (kind & ks2 & Hk & HF2 & ->).
  rewrite count_kind_app in Hle, Hone.
  set (w0 := with_pending (pre ++ post) w).
  assert (Forall2 has_kind (ks1 ++ ks2) (pending w0)) as HF0
    by (by apply Forall2_app).
  destruct kind; simpl in Hk, Hle, Hone.
  - destruct (Hk o w0) as (Ha & Hu & Hp & Hnp').
    split; [by apply Hnp' |]. exists (ks1 ++ ks2).
    rewrite Hp, Ha, Hu, count_kind_app. split; [done |].
    split; [done |]. split; [| done].
    intros H1. destruct (Hone H1) as (? & ? & Hl).
    rewrite count_kind_app in Hl |- *. simpl in Hl. done.
  - destruct (Hk o w0) as (Ha & Hu & Hp & Hnp').
    split; [by apply Hnp' |]. exists (ks1 ++ ks2).
    rewrite Hp, Ha, Hu, count_kind_app. split; [done |].
    split; [done |]. split.
    + intros H1. destruct (Hone H1) as (_ & _ & Hl).
      rewrite count_kind_app in Hl. simpl in Hl. lia.
    + by intros [? ?].
  - assert (count_kind LookupRest ks1 + count_kind LookupRest ks2 = 0) as Hzero
      by lia.
    destruct Hone as (Hu0 & Ht0 & Hl0); [lia |].
    destruct (Hk o w0) as (Ha & Hu & Hp & Hnp').
    split; [by apply Hnp' |]. rewrite Ha.
    destruct Hp as [Hp | (q & Hp & Hq')].
    + exists (ks1 ++ ks2). rewrite Hp, count_kind_app.
      split; [done |]. split; [lia |]. split; [lia | done].
    + exists ((ks1 ++ ks2) ++ [LogoutRest]). rewrite Hp, !count_kind_app.
      split; [apply Forall2_app; [done | by constructor] |].
      simpl. split; [lia |]. split; [lia | done].
Qed.

Lemma session_consistent_page_load (storage : gmap string string) (loc : Location) :
  session_consistent (page_load storage loc).
Proof.
  destruct (page_load_summary storage loc) as (Htok & Hu & He & _ & HF & _).
  split; [unfold no_prompt; by rewrite He |].
  destruct (effective_token storage loc) as [token |] eqn:Heff.
  - exists [LookupRest; Plain]. split; [done |]. cbn [count_kind].
    split; [lia |]. rewrite Htok, Hu. split.
    + intros _. split; [done |]. split; [| done].
      by apply truthy_Some, (effective_token_nonempty storage loc).
    + by intros [? ?].
  - exists [Plain]. split; [done |]. cbn [count_kind].
    split; [lia |]. rewrite Hu. split; [lia |]. by intros [? ?].
Qed.

Lemma session_stays_consistent (storage : gmap string string) (loc : Location)
    (w : World) :
  rtc step (page_load storage loc) w -> session_consistent w.
Proof.
  intros Hreach.
  cut (forall w0 w1, rtc step w0 w1 -> session_consistent w0 -> session_consistent w1).
  { intros H. apply (H _ _ Hreach), session_consistent_page_load. }
  clear. induction 1 as [w | w1 w2 w3 Hstep _ IH]; [done |].
  intros Hw. apply IH.
  destruct Hstep as [b w Hshown Hen | T r k o pre post w Hq].
  - by apply session_consistent_click.
  - by apply (session_consistent_settle T r).
Qed.

(** X9. Whenever the client shows a signed-in user, it holds a non-empty
    token in memory: in every state reached from a page load by clicks
    and settlements, a non-null user info comes with a non-empty auth
    token. *)
Theorem signed_in_holds_token (storage : gmap string string) (loc : Location)
    (w : World) :
  rtc step (page_load storage loc) w ->
  is_Some (userInfo (component w)) ->
  exists token : string,
    authToken (component w) = Some token /\ token ≠ "".
Proof.
  intros Hreach Hu.
  destruct (session_stays_consistent storage loc w Hreach)
    as (_ & ks & _ & _ & _ & Hin).
  specialize (Hin Hu).
  destruct (authToken (component w)) as [token |]; [| done].
  exists token. split; [done |]. by apply truthy_Some.
Qed.

Lemma signed_in_holds_token_witness :
  exists w : World,
    rtc step (page_load {[ "auth_token" := "abc" ]} {| pathname := "/"; search := [] |}) w /\
    is_Some (userInfo (component w)) /\
    exists token : string,
      authToken (component w) = Some token /\ token ≠ "".
Proof.
  destruct example_signed_in as (w & Hreach & Hu & _).
  exists w. split; [exact Hreach |]. split; [exact Hu |].
  exact (signed_in_holds_token _ _ w Hreach Hu).
Defined.

(** X10. The guard of [fetchProtectedData] never fires in a session: in
    every state reached from a page load, an enabled game-data button
    belongs to a render with a non-empty token, so a click on it issues
    GET /api/protected with that token, and the message
    'Please log in first' is never on display. *)
Theorem login_prompt_never_shown (storage : gmap string string) (loc : Location)
    (w : World) :
  rtc step (page_load storage loc) w ->
  error (component w) ≠ Some "Please log in first" /\
  forall b : Button,
    b = AccessGameData \/ b = TryAccessGameData ->
    shown b (component w) = true ->
    disabled b (component w) = false ->
    exists token : string,
      token ≠ "" /\
      requests (run (onClick b (component w)) w)
      = requests w ++ [protected_request token].
Proof.
  intros Hreach.
  pose proof (session_stays_consistent storage loc w Hreach) as Hw.
  split; [apply Hw |].
  intros b Hb Hshown Hen.
  destruct (game_button_has_token b w Hb Hshown Hen Hw) as (token & Ht & Hne).
  exists token. split; [done |].
  destruct (fetchProtectedData_rest (component w) token Ht Hne) as (k & Hrun & _).
  by destruct Hb as [-> | ->]; unfold onClick; rewrite Hrun.
Qed.

Lemma login_prompt_never_shown_witness :
  exists w : World,
    rtc step (page_load {[ "auth_token" := "abc" ]} {| pathname := "/"; search := [] |}) w /\
    shown AccessGameData (component w) = true /\
    disabled AccessGameData (component w) = false /\
    error (component w) ≠ Some "Please log in first" /\
    exists token : string,
      token ≠ "" /\
      requests (run (onClick AccessGameData (component w)) w)
      = requests w ++ [protected_request token].
Proof.
  destruct example_signed_in as (w & Hreach & Hu & _ & Hl).
  exists w. split; [exact Hreach |].
  assert (shown AccessGameData (component w) = true) as Hshown
    by (by apply bool_decide_eq_true).
  split; [exact Hshown |]. split; [exact Hl |].
  destruct (login_prompt_never_shown _ _ w Hreach) as [Herr Hclick].
  split; [exact Herr |].
  exact (Hclick AccessGameData (or_introl eq_refl) Hshown Hl).
Defined.

(** ** Clicks in a session *)

Lemma click_issues (b : Button) (w : World) :
  session_consistent w ->
  shown b (component w) = true ->
  disabled b (component w) = false ->
  exists p : Pending, run (onClick b (component w)) w = issue p (started w).
Proof.
  intros Hw Hshown Hen. destruct b; unfold onClick.
  - destruct fetchApiInfo_rest as (k & Hrun & _). by eexists.
  - destruct (handleLogout_rest (component w)) as (k & Hrun & _). by eexists.
  - destruct handleLogin_rest as (k & Hrun & _). by eexists.
  - destruct (game_button_has_token AccessGameData w) as (token & Ht & Hne);
      [by left | done | done | done |].
    destruct (fetchProtectedData_rest (component w) token Ht Hne) as (k & Hrun & _).
    by eexists.
  - destruct (game_button_has_token TryAccessGameData w) as (token & Ht & Hne);
      [by right | done | done | done |].
    destruct (fetchProtectedData_rest (component w) token Ht Hne) as (k & Hrun & _).
    by eexists.
Qed.

(** X11. In a session, a click on an enabled button issues exactly one
    request, puts exactly one function in the queue, and leaves every
    button disabled: no second operation can be started by a click before
    some request settles. *)
Theorem click_disables_every_button (storage : gmap string string)
    (loc : Location) (w : World) (b : Button) :
  rtc step (page_load storage loc) w ->
  shown b (component w) = true ->
  disabled b (component w) = false ->
  let w' := run (onClick b (component w)) w in
  (exists r : Request, requests w' = requests w ++ [r]) /\
  length (pending w') = S (length (pending w)) /\
  forall b' : Button, disabled b' (component w') = true.
Proof.
  intros Hreach Hshown Hen w'. subst w'.
  destruct (click_issues b w) as ([T r k] & ->);
    [by apply (session_stays_consistent storage loc) | done | done |].
  split; [by exists r |]. split.
  - cbn. rewrite length_app. simpl. lia.
  - intros b'. destruct b'; cbn; try done. apply orb_true_r.
Qed.

Lemma click_disables_every_button_witness :
  exists w : World,
    rtc step (page_load {[ "auth_token" := "abc" ]} {| pathname := "/"; search := [] |}) w /\
    shown SignOut (component w) = true /\
    disabled SignOut (component w) = false /\
    let w' := run (onClick SignOut (component w)) w in
    (exists r : Request, requests w' = requests w ++ [r]) /\
    length (pending w') = S (length (pending w)) /\
    forall b' : Button, disabled b' (component w') = true.
Proof.
  destruct example_signed_in as (w & Hreach & Hu & _ & Hl).
  exists w. split; [exact Hreach |].
  assert (shown SignOut (component w) = true) as Hshown
    by (by apply bool_decide_eq_true).
  split; [exact Hshown |]. split; [exact Hl |].
  exact (click_disables_every_button _ _ w SignOut Hreach Hshown Hl).
Defined.

(** X12. A sign-out by click is bearer-authenticated: in a session the
    'Sign Out' button, when enabled, belongs to a render with a non-empty
    token, and its click issues POST /auth/logout with
    [Authorization: Bearer <token>]. *)
Theorem sign_out_click_sends_bearer (storage : gmap string string)
    (loc : Location) (w : World) :
  rtc step (page_load storage loc) w ->
  shown SignOut (component w) = true ->
  exists token : string,
    authToken (component w) = Some token /\ token ≠ "" /\
    requests (run (onClick SignOut (component w)) w)
    = requests w
      ++ [ {| method := POST; url := "http://localhost:8000/auth/logout";
              headers := [("Authorization", "Bearer " +:+ token)] |} ].
Proof.
  intros Hreach Hshown. apply bool_decide_eq_true in Hshown.
  destruct (session_stays_consistent storage loc w Hreach)
    as (_ & ks & _ & _ & _ & Hin).
  specialize (Hin Hshown).
  destruct (authToken (component w)) as [token |] eqn:Ht; [| done].
  apply truthy_Some in Hin. exists token. split; [done |]. split; [done |].
  destruct (handleLogout_rest (component w)) as (k & Hrun & _).
  unfold onClick. rewrite Hrun. cbn. unfold logout_headers.
  by rewrite Ht, when_truthy_true.
Qed.

Lemma sign_out_click_sends_bearer_witness :
  exists w : World,
    rtc step (page_load {[ "auth_token" := "abc" ]} {| pathname := "/"; search := [] |}) w /\
    shown SignOut (component w) = true /\
    exists token : string,
      authToken (component w) = Some token /\ token ≠ "" /\
      requests (run (onClick SignOut (component w)) w)
      = requests w
        ++ [ {| method := POST; url := "http://localhost:8000/auth/logout";
                headers := [("Authorization", "Bearer " +:+ token)] |} ].
Proof.
  destruct example_signed_in as (w & Hreach & Hu & _).
  exists w. split; [exact Hreach |].
  assert (shown SignOut (component w) = true) as Hshown
    by (by apply bool_decide_eq_true).
  split; [exact Hshown |].
  exact (sign_out_click_sends_bearer _ _ w Hreach Hshown).
Defined.

(** ** The page load as a whole *)

(** X13. The page load resolves the token by priority: the 'token'
    parameter of the URL if it is non-empty, else the stored token if it
    is non-empty, else none.  With a token it ends holding that token and
    has issued the user lookup with it, then the info fetch; without one
    it holds no token and has issued the info fetch only.  Either way
    nobody is signed in yet and no error is shown. *)
Theorem page_load_resolves_token (storage : gmap string string) (loc : Location) :
  let w := page_load storage loc in
  authToken (component w) = effective_token storage loc /\
  requests w
  = match effective_token storage loc with
    | Some token => [user_request token; info_request]
    | None => [info_request]
    end /\
  userInfo (component w) = None /\
  error (component w) = None.
Proof.
  destruct (page_load_summary storage loc) as (Htok & Hu & He & Hreq & _).
  by repeat split.
Qed.

(** ** Login *)

(** X14. [handleLogin] issues GET /auth/login without headers.  When the
    request resolves, the rest of the function assigns the
    [authorization_url] of the answer to [location.href] and resets the
    loading flag, and does nothing else: the [state] of the answer is
    neither stored nor looked at, no token is set and local storage is not
    touched.  When the request is rejected, no navigation happens. *)
Theorem handleLogin_redirects (w : World) :
  exists k : Outcome AuthResponse.t -> Async,
    suspends handleLogin w
      {| method := GET; url := "http://localhost:8000/auth/login"; headers := [] |}
      k /\
    (forall (response : Response AuthResponse.t) (w' : World),
        run (k (Resolved response)) w'
        = with_component (put_loading false)
            (with_navigation
               (AuthResponse.authorization_url (data response)) w')) /\
    (forall (err : Thrown) (w' : World),
        navigation (run (k (Rejected err)) w') = navigation w' /\
        localStorage (run (k (Rejected err)) w') = localStorage w').
Proof.
  eexists. split; [split; reflexivity |]. split; [reflexivity |].
  intros err w'. by split.
Qed.

(** ** The endpoints *)

Lemma every_checkAuthStatus (R : Request -> Prop) (render : Component) :
  (forall t, R (user_request t)) ->
  R (logout_request (logout_headers render)) ->
  every (fun _ => True) R (checkAuthStatus render).
Proof.
  intros Huser Hlogout urlParams. apply every_when_truthy.
  - intros tokenFromUrl _ _. simpl. split; [done |]. split; [done |].
    apply every_seq.
    + by apply every_when_truthy.
    + intros path. simpl. split; [done |]. split; [| done].
      by apply every_fetchUserInfo.
  - intros storedToken. apply every_when_truthy; [| done].
    intros t _ _. simpl. split; [done |]. split; [| done].
    by apply every_fetchUserInfo.
Qed.

Lemma endpoint_requests :
  endpoint info_request /\ endpoint login_request /\
  (forall t, endpoint (user_request t)) /\
  (forall t, endpoint (protected_request t)) /\
  (forall hs, endpoint (logout_request hs)).
Proof.
  unfold endpoint. simpl. split_and!; intros; rewrite !elem_of_cons; tauto.
Qed.

(** A session in which the user lookup of the page load gets a 401. *)
Lemma example_rejected_lookup :
  exists w : World,
    rtc step (page_load {[ "auth_token" := "abc" ]} {| pathname := "/"; search := [] |}) w /\
    logout_request [] ∈ requests w.
Proof.
  eexists. split.
  - eapply rtc_l; [| apply rtc_refl].
    eapply (step_settle UserInfo.t _ _ (Rejected (AxiosError "401" (Some 401%Z))) []).
    reflexivity.
  - apply list_elem_of_In. vm_compute. tauto.
Qed.

(** X15. The client talks to five endpoints only: every request it has
    issued, in every state reached from a page load, is GET /api/info,
    GET /auth/user, GET /auth/login, POST /auth/logout or
    GET /api/protected on http://localhost:8000. *)
Theorem requests_go_to_known_endpoints (storage : gmap string string)
    (loc : Location) (w : World) (r : Request) :
  rtc step (page_load storage loc) w ->
  r ∈ requests w ->
  (method r, url r) ∈
    [ (GET, "http://localhost:8000/api/info");
      (GET, "http://localhost:8000/auth/user");
      (GET, "http://localhost:8000/auth/login");
      (POST, "http://localhost:8000/auth/logout");
      (GET, "http://localhost:8000/api/protected") ].
Proof.
  intros Hreach Hin.
  destruct endpoint_requests as (Hinfo & Hlogin & Huser & Hprot & Hlogout).
  assert (kept [] (fun _ => True) endpoint (fun _ => True) w)
    as (_ & (rest & Hrest & HR) & _).
  { apply (rtc_kept [] (fun _ => True) endpoint (fun _ => True))
      with (w := page_load storage loc); try done.
    - intros b w0 _. destruct b; unfold onClick.
      + by apply every_fetchApiInfo.
      + by apply every_handleLogout.
      + by apply every_handleLogin.
      + by apply every_fetchProtectedData.
      + by apply every_fetchProtectedData.
    - apply (run_kept [] (fun _ => True) endpoint (fun _ => True)); try done.
      + split; [by apply every_checkAuthStatus |].
        split; [by apply every_fetchApiInfo | done].
      + split; [done |]. split; [by exists [] | constructor]. }
  rewrite Hrest in Hin. by apply (proj1 (Forall_forall _ _) HR).
Qed.

Lemma requests_go_to_known_endpoints_witness :
  exists w : World,
    rtc step (page_load {[ "auth_token" := "abc" ]} {| pathname := "/"; search := [] |}) w /\
    logout_request [] ∈ requests w /\
    (method (logout_request []), url (logout_request [])) ∈
      [ (GET, "http://localhost:8000/api/info");
        (GET, "http://localhost:8000/auth/user");
        (GET, "http://localhost:8000/auth/login");
        (POST, "http://localhost:8000/auth/logout");
        (GET, "http://localhost:8000/api/protected") ].
Proof.
  destruct example_rejected_lookup as (w & Hreach & Hin).
  exists w. split; [exact Hreach |]. split; [exact Hin |].
  exact (requests_go_to_known_endpoints _ _ w (logout_request []) Hreach Hin).
Defined.
